(** * darmstadt: jump-host selection with failover, and the parallel fan-out

    A shallow embedding of [darmstadt/jump_host.py] and
    [darmstadt/parallel.py].

    - Python exceptions are values of [exn]: a class, the constructor
      arguments and the [__cause__] set by [raise ... from ...].  [exn]
      stands for instances of [Exception] and its subclasses, the ones an
      [except Exception] clause catches.
    - A call that may raise returns an [outcome]; a call that may also touch
      mutable state is a function [S -> outcome A * S].
    - [JumpHost] objects live in a store indexed by references, so that the
      caches written by [connect] and [docker_client] are shared between all
      holders of a reference and a newly constructed object has an identity
      of its own.
    - The libraries the code calls ([fabric], [docker], [invoke], [random])
      are the fields of the class [Externals].
    - The built-ins and the standard library ([int], tuple indexing,
      [socket.timeout], [asyncio], [concurrent.futures]) are those of
      CPython 3.11 on a 64-bit platform. *)

From Stdlib Require Import ZArith String Ascii List QArith DecimalString.
From stdpp Require Import base option list gmap strings.

Open Scope string_scope.
Open Scope list_scope.
Open Scope Z_scope.

(** ** Exceptions *)

Module Py.

(** The exception classes the two modules name, raise or meet in their tests,
    [StopIteration], and two kinds of classes a caller may define as direct
    subclasses of [Exception]: [UserException], whose instances are true as
    those of every built-in exception class are, and [FalsyException], which
    defines [__bool__] (or [__len__]) so that its instances are false. *)
Inductive pyclass : Type :=
  | Exception_
  | ArithmeticError
  | ZeroDivisionError
  | LookupError
  | IndexError
  | ValueError
  | ReferenceError
  | OSError
  | ConnectionError
  | TimeoutError
  | socket_gaierror
  | SSHException
  | AuthenticationException
  | StopIteration
  | UserException (name : string)
  | FalsyException (name : string).

(** [socket.timeout] is another name of the class [TimeoutError] (it was a
    class of its own below [OSError] before Python 3.10). *)
Definition socket_timeout : pyclass := TimeoutError.

#[global] Instance pyclass_eq_dec : EqDecision pyclass.
Proof. solve_decision. Defined.

(** Method resolution order of a class, cut at [Exception]. *)
Definition mro (c : pyclass) : list pyclass :=
  match c with
  | Exception_ => [Exception_]
  | ArithmeticError => [ArithmeticError; Exception_]
  | ZeroDivisionError => [ZeroDivisionError; ArithmeticError; Exception_]
  | LookupError => [LookupError; Exception_]
  | IndexError => [IndexError; LookupError; Exception_]
  | ValueError => [ValueError; Exception_]
  | ReferenceError => [ReferenceError; Exception_]
  | OSError => [OSError; Exception_]
  | ConnectionError => [ConnectionError; OSError; Exception_]
  | TimeoutError => [TimeoutError; OSError; Exception_]
  | socket_gaierror => [socket_gaierror; OSError; Exception_]
  | SSHException => [SSHException; Exception_]
  | AuthenticationException =>
      [AuthenticationException; SSHException; Exception_]
  | StopIteration => [StopIteration; Exception_]
  | UserException n => [UserException n; Exception_]
  | FalsyException n => [FalsyException n; Exception_]
  end.

Definition issubclass (c d : pyclass) : bool := bool_decide (d ∈ mro c).

(** An exception object: [Exn cls args cause]. *)
#[warnings="-register-all"]
Inductive exn : Type :=
  | Exn (cls : pyclass) (args : list string) (cause : option exn).

Definition exn_class (e : exn) : pyclass := let '(Exn c _ _) := e in c.
Definition exn_args (e : exn) : list string := let '(Exn _ a _) := e in a.
Definition exn_cause (e : exn) : option exn := let '(Exn _ _ c) := e in c.

(** [isinstance(e, c)], the test an [except c] clause makes. *)
Definition isinstance (e : exn) (c : pyclass) : bool :=
  issubclass (exn_class e) c.

(** [cls()] raised with [from e]: no arguments, [__cause__] set to [e]. *)
Definition raise_from (c : pyclass) (e : exn) : exn := Exn c [] (Some e).

(** [Exception(msg)]. *)
Definition Exception (msg : string) : exn := Exn Exception_ [msg] None.

(** Truth value of an exception object in [if last_exception:].
    [BaseException] defines neither [__bool__] nor [__len__], so an
    exception is true unless its class makes it false. *)
Definition truthy_exn (e : exn) : bool :=
  match exn_class e with
  | FalsyException _ => false
  | _ => true
  end.

Inductive outcome (A : Type) : Type :=
  | Ok (a : A)
  | Raise (e : exn).
#[global] Arguments Ok {A} a.
#[global] Arguments Raise {A} e.

(** A reference to an object of the store. *)
Abbreviation ref := positive.

(** What awaiting gives: an outcome, or nothing when what is awaited never
    completes. *)
Inductive awaited (A : Type) : Type :=
  | Done (o : outcome A)
  | Never.
#[global] Arguments Done {A} o.
#[global] Arguments Never {A}.

#[global] Coercion Done : outcome >-> awaited.

End Py.
Import Py.

(** ** The log *)

(** The records written through [logging], one constructor per call site;
    the arguments are the ones given for the [%s] places. *)
Inductive log_entry : Type :=
  | Warning_ConnectionError (jh : ref) (e : exn)
  | Warning_Exception (jh : ref) (e : exn)
  | Error_unable_to_connect
  | Error_DNS_lookup (h : string)
  | Error_SSH_timeout (h : string)
  | Error_SSH_authentication (h : string)
  | Debug_connected (h : string)
  | Debug_docker_client_connected (h : string).

(** ** Failover: [JumpHost.try_function_on_any] *)

Module Failover.
Section failover.
(** [S] is whatever state the unit of work and the log live in, [R] the type
    of the result of the unit of work. *)
Context {S R : Type}.
Variable logging : log_entry → S → S.
Variable func : ref → S → outcome R * S.

(** Truth value of a host in [if successful_host:].  [JumpHost] defines
    neither [__bool__] nor [__len__]. *)
Definition truthy_host (_ : ref) : bool := true.

(** The [for ... else] loop, with [last_exception] as loop state, followed by
    the statements after the loop on the [break] path. *)
Fixpoint for_host_in (jump_hosts : list ref) (last_exception : option exn)
    (σ : S) : outcome (ref * R) * S :=
  match jump_hosts with
  | host :: rest =>
      match func host σ with
      | (Raise e, σ1) =>
          if isinstance e ConnectionError
          then for_host_in rest (Some e)
                 (logging (Warning_ConnectionError host e) σ1)
          else for_host_in rest (Some e)
                 (logging (Warning_Exception host e) σ1)
      | (Ok result, σ1) =>
          (* successful_host = host; break *)
          if truthy_host host
          then (Ok (host, result), σ1)
          else (Raise (Exception "Unreachable code."), σ1)
      end
  | [] =>
      (* else: *)
      let σ1 := logging Error_unable_to_connect σ in
      match last_exception with
      | Some e =>
          if truthy_exn e then (Raise e, σ1)
          else (Raise (Exception "No hosts provided"), σ1)
      | None => (Raise (Exception "No hosts provided"), σ1)
      end
  end.

Definition try_function_on_any (jump_hosts : list ref) (σ : S)
    : outcome (ref * R) * S :=
  for_host_in jump_hosts None σ.

(** The warning the loop writes when the work on [host] raised [e]. *)
Definition failover_warning (host : ref) (e : exn) : log_entry :=
  if isinstance e ConnectionError
  then Warning_ConnectionError host e
  else Warning_Exception host e.

(** [failed_run hosts σ last σ' last']: the work, tried on [hosts] in turn
    from state [σ], raises on every one of them; [σ'] is the state after the
    last warning and [last'] the last exception raised ([last] when [hosts]
    is empty). *)
Inductive failed_run : list ref → S → option exn → S → option exn → Prop :=
  | failed_nil σ last : failed_run [] σ last σ last
  | failed_cons host rest σ last e σ1 σ' last' :
      func host σ = (Raise e, σ1) →
      failed_run rest (logging (failover_warning host e) σ1) (Some e)
        σ' last' →
      failed_run (host :: rest) σ last σ' last'.

End failover.
End Failover.

(** *** Recording the calls of the unit of work

    To speak of the candidates the work was invoked on, the work is wrapped
    so that every call appends its argument to a list kept next to the
    state.  The wrapper changes neither outcomes nor states. *)

Module Trace.
Section trace.
Context {S R : Type}.
Variable logging : log_entry → S → S.
Variable func : ref → S → outcome R * S.

Definition traced_func (host : ref) (st : S * list ref)
    : outcome R * (S * list ref) :=
  let '(o, σ1) := func host st.1 in (o, (σ1, st.2 ++ [host])).

Definition traced_logging (l : log_entry) (st : S * list ref)
    : S * list ref :=
  (logging l st.1, st.2).

End trace.
End Trace.

(** ** Python built-ins used by [choose_from] *)

Module Builtins.

(** A character is a code point below 256 (Latin-1). *)
Definition is_decimal_digit (c : ascii) : bool :=
  let n := nat_of_ascii c in (48 <=? n)%nat && (n <=? 57)%nat.

(** Code points below 256 with a numeric value: the decimal digits,
    superscript two, three and one, and the three vulgar fractions. *)
Definition is_numeric_char (c : ascii) : bool :=
  is_decimal_digit c
  || bool_decide (nat_of_ascii c ∈ [178; 179; 185; 188; 189; 190]%nat).

(** [str.isnumeric]: at least one character, and all of them numeric. *)
Definition isnumeric (s : string) : bool :=
  match s with
  | EmptyString => false
  | _ => forallb is_numeric_char (list_ascii_of_string s)
  end.

Definition digit_value (c : ascii) : Z := Z.of_nat (nat_of_ascii c) - 48.

(** [sys.get_int_max_str_digits()], by default. *)
Definition int_max_str_digits : Z := 4300.

(** The decimal numeral of a natural number, as [str] writes it. *)
Definition str_of_nat (n : nat) : string :=
  NilZero.string_of_uint (Nat.to_uint n).

Definition int_limit_message (digits : nat) : string :=
  String.append "Exceeds the limit (4300 digits) for integer string "
    (String.append "conversion: value has "
       (String.append (str_of_nat digits)
          (String.append " digits; use sys.set_int_max_str_digits() "
             "to increase the limit"))).

(** [int(s)] on a string without sign, blanks or underscores.  A character
    that is not a decimal digit gives [ValueError]; so do more digits,
    leading zeros included, than [int_max_str_digits]; otherwise the result
    is the decimal value. *)
Definition int_of_str (s : string) : outcome Z :=
  let cs := list_ascii_of_string s in
  if negb (bool_decide (cs = [])) && forallb is_decimal_digit cs
  then
    if int_max_str_digits <? Z.of_nat (length cs)
    then Raise (Exn ValueError [int_limit_message (length cs)] None)
    else Ok (fold_left (λ acc c, 10 * acc + digit_value c) cs 0)
  else Raise (Exn ValueError
                [String.append "invalid literal for int() with base 10: '"
                   (String.append s "'")] None).

(** [sys.maxsize] *)
Definition sys_maxsize : Z := 9223372036854775807.

(** The message of the [IndexError] for the index [i]: an index that does
    not fit the machine type of indices has a message of its own. *)
Definition index_error_message (i : Z) : string :=
  if (i <? - sys_maxsize - 1) || (sys_maxsize <? i)
  then "cannot fit 'int' into an index-sized integer"
  else "tuple index out of range".

(** [t[i]] on a tuple: a negative index counts from the end.  A tuple has
    at most [sys.maxsize] elements, so an index that does not fit the
    machine type is out of range as well; the two refusals differ by their
    message only and are made here in one test. *)
Definition tuple_getitem {A} (t : list A) (i : Z) : outcome A :=
  let n := Z.of_nat (length t) in
  let j := if i <? 0 then i + n else i in
  if (j <? 0) || (n <=? j)
  then Raise (Exn IndexError [index_error_message i] None)
  else match t !! Z.to_nat j with
       | Some x => Ok x
       | None => Raise (Exn IndexError [index_error_message i] None)
       end.

(** [x[i], x[j] = x[j], x[i]]. *)
Definition swap {A} (x : list A) (i j : nat) : list A :=
  match x !! i, x !! j with
  | Some xi, Some xj => <[j:=xi]> (<[i:=xj]> x)
  | _, _ => x
  end.

End Builtins.
Import Builtins.

(** ** The [JumpHost] class *)

(** What the module imports from other libraries.  [World] is the state
    those libraries act on (the network, the random generator). *)
Class Externals : Type := {
  Conn : Type;
  Client : Type;
  World : Type;
  (** [fabric.Connection(host)] and [connection.open()] *)
  fabric_Connection : string → World → outcome Conn * World;
  conn_open : Conn → World → outcome unit * World;
  (** [docker.from_env(environment={"DOCKER_HOST": ...})]; [None] for the
      call without arguments *)
  docker_from_env : option string → World → outcome Client * World;
  (** [invoke.context.Context()] *)
  invoke_Context : World → Conn * World;
  (** [random]'s [_randbelow(n)], a number below [n] *)
  randbelow : nat → World → nat * World;
  randbelow_lt n w : (0 < n)%nat → ((randbelow n w).1 < n)%nat;
}.

Module Host.
Section host.
Context `{Externals}.

Inductive host_class : Type := JumpHost_class | LocalHost_class.

(** The attributes of an instance, and the class it was made from. *)
Record JumpHost : Type := {
  class_of : host_class;
  host : string;
  connection_func : string → World → outcome Conn * World;
  docker_client_func : string → World → outcome Client * World;
  cached_docker_client : option Client;
  cached_connection : option Conn;
}.

Record state : Type := {
  heap : gmap ref JumpHost;
  world : World;
  logs : list log_entry;
}.

Definition set_cached_connection (c : Conn) (jh : JumpHost) : JumpHost :=
  {| class_of := class_of jh; host := host jh;
     connection_func := connection_func jh;
     docker_client_func := docker_client_func jh;
     cached_docker_client := cached_docker_client jh;
     cached_connection := Some c |}.

Definition set_cached_docker_client (c : Client) (jh : JumpHost) : JumpHost :=
  {| class_of := class_of jh; host := host jh;
     connection_func := connection_func jh;
     docker_client_func := docker_client_func jh;
     cached_docker_client := Some c;
     cached_connection := cached_connection jh |}.

(** *** Statements: state and exceptions *)

Definition M (A : Type) : Type := state → outcome A * state.

Definition ret {A} (a : A) : M A := λ σ, (Ok a, σ).
Definition raise {A} (e : exn) : M A := λ σ, (Raise e, σ).
Definition bind {A B} (c : M A) (k : A → M B) : M B :=
  λ σ, match c σ with
       | (Ok a, σ1) => k a σ1
       | (Raise e, σ1) => (Raise e, σ1)
       end.

(** [try: body except ...: handler] *)
Definition try_except {A} (body : M A) (handler : exn → M A) : M A :=
  λ σ, match body σ with
       | (Ok a, σ1) => (Ok a, σ1)
       | (Raise e, σ1) => handler e σ1
       end.

(** A call into a library. *)
Definition extern {A} (f : World → outcome A * World) : M A :=
  λ σ, let '(o, w) := f (world σ) in
       (o, {| heap := heap σ; world := w; logs := logs σ |}).

Definition logging (l : log_entry) (σ : state) : state :=
  {| heap := heap σ; world := world σ; logs := logs σ ++ [l] |}.

Definition log (l : log_entry) : M unit := λ σ, (Ok tt, logging l σ).

(** Reading an object through a reference.  Every reference a program holds
    is to a live object; a reference that is not bound in the store gives
    [ReferenceError], which keeps the functions total. *)
Definition deref (self : ref) : M JumpHost :=
  λ σ, match heap σ !! self with
       | Some jh => (Ok jh, σ)
       | None => (Raise (Exn ReferenceError [] None), σ)
       end.

(** Assignment to attributes of [self]. *)
Definition update (self : ref) (f : JumpHost → JumpHost) : M unit :=
  λ σ, (Ok tt, {| heap := alter f self (heap σ); world := world σ;
                  logs := logs σ |}).

(** Object creation: the new object gets a reference no live object has. *)
Definition new (jh : JumpHost) : M ref :=
  λ σ, let l := fresh (dom (heap σ)) in
       (Ok l, {| heap := <[l:=jh]> (heap σ); world := world σ;
                 logs := logs σ |}).

End host.

Notation "'let!' x ':=' c 'in' k" := (bind c (λ x, k))
  (at level 10, x pattern, c at level 100, k at level 200).

Section methods.
Context `{Externals}.

Definition _remote_docker_connection (hostname : string)
    : World → outcome Client * World :=
  docker_from_env (Some (String.append "ssh://" hostname)).

(** [JumpHost.__init__], on an object of class [k]. *)
Definition init (k : host_class) (host : string)
    (connection_func : string → World → outcome Conn * World)
    (docker_client_func : string → World → outcome Client * World)
    : JumpHost :=
  {| class_of := k; host := host;
     connection_func := connection_func;
     docker_client_func := docker_client_func;
     cached_docker_client := None;
     cached_connection := None |}.

(** [JumpHost(host)], with the default values of the two keyword
    parameters. *)
Definition JumpHost_ (host : string) : M ref :=
  new (init JumpHost_class host fabric_Connection _remote_docker_connection).

(** [LocalHost()] *)
Definition LocalHost_ : M ref :=
  new (init LocalHost_class "losalhost" fabric_Connection
         _remote_docker_connection).

(** [JumpHost.__str__] *)
Definition str (self : ref) : M string :=
  let! jh := deref self in ret (host jh).

(** [JumpHost.connect] *)
Definition JumpHost_connect (self : ref) : M Conn :=
  let! jh := deref self in
  match cached_connection jh with
  | Some c => ret c
  | None =>
      let! connection :=
        try_except
          (let! connection := extern (connection_func jh (host jh)) in
           let! _ := extern (conn_open connection) in
           ret connection)
          (λ e,
             if isinstance e socket_gaierror then
               let! _ := log (Error_DNS_lookup (host jh)) in
               raise (raise_from ConnectionError e)
             else if isinstance e socket_timeout then
               let! _ := log (Error_SSH_timeout (host jh)) in
               raise (raise_from ConnectionError e)
             else if isinstance e AuthenticationException then
               let! _ := log (Error_SSH_authentication (host jh)) in
               raise (raise_from ConnectionError e)
             else raise e) in
      let! _ := log (Debug_connected (host jh)) in
      let! _ := update self (set_cached_connection connection) in
      ret connection
  end.

(** [JumpHost.docker_client] *)
Definition JumpHost_docker_client (self : ref) : M Client :=
  let! jh := deref self in
  match cached_docker_client jh with
  | Some c => ret c
  | None =>
      let! client :=
        try_except
          (extern (docker_client_func jh (host jh)))
          (λ e,
             if isinstance e socket_gaierror then
               let! _ := log (Error_DNS_lookup (host jh)) in
               raise (raise_from ConnectionError e)
             else if isinstance e TimeoutError then
               let! _ := log (Error_SSH_timeout (host jh)) in
               raise (raise_from ConnectionError e)
             else if isinstance e AuthenticationException then
               let! _ := log (Error_SSH_authentication (host jh)) in
               raise (raise_from ConnectionError e)
             else raise e) in
      let! _ := log (Debug_docker_client_connected (host jh)) in
      let! _ := update self (set_cached_docker_client client) in
      ret client
  end.

(** [LocalHost.connect] and [LocalHost.docker_client] *)
Definition LocalHost_connect (self : ref) : M Conn :=
  extern (λ w, let '(c, w1) := invoke_Context w in (Ok c, w1)).

Definition LocalHost_docker_client (self : ref) : M Client :=
  extern (docker_from_env None).

(** [jh.connect()] and [jh.docker_client()]: the method of the class of the
    object. *)
Definition connect (self : ref) : M Conn :=
  let! jh := deref self in
  match class_of jh with
  | JumpHost_class => JumpHost_connect self
  | LocalHost_class => LocalHost_connect self
  end.

Definition docker_client (self : ref) : M Client :=
  let! jh := deref self in
  match class_of jh with
  | JumpHost_class => JumpHost_docker_client self
  | LocalHost_class => LocalHost_docker_client self
  end.

(** [JumpHost.try_function_on_any], on the state of this module. *)
Definition try_function_on_any {R} (func : ref → M R)
    (jump_hosts : list ref) : M (ref * R) :=
  Failover.try_function_on_any logging func jump_hosts.

(** [JumpHost.try_connect_to_any] *)
Definition try_connect_to_any (jump_hosts : list ref) : M (ref * Conn) :=
  try_function_on_any (λ jh, connect jh) jump_hosts.

(** [random.shuffle(x)]: for [i] from [len(x) - 1] down to [1], swap
    [x[i]] with [x[j]] for a random [j <= i]. *)
Fixpoint shuffle_from {A} (i : nat) (x : list A) (w : World)
    : list A * World :=
  match i with
  | O => (x, w)
  | Datatypes.S i' =>
      let '(j, w1) := randbelow (i + 1) w in
      shuffle_from i' (swap x i j) w1
  end.

Definition shuffle {A} (x : list A) : M (list A) :=
  extern (λ w, let '(x', w1) := shuffle_from (length x - 1) x w in
               (Ok x', w1)).

(** The value given for [override]: [None], an [int] or a [str]. *)
Inductive override_value : Type :=
  | None_
  | Int (n : Z)
  | Str (s : string).

(** [JumpHost.choose_from] *)
Definition choose_from (default_hosts : list ref) (override : override_value)
    : M ref :=
  match override with
  | Int n =>
      (* isinstance(override, int) *)
      λ σ, (tuple_getitem default_hosts (n - 1), σ)
  | Str s =>
      if isnumeric s then
        (* isinstance(override, str) and override.isnumeric() *)
        λ σ, match int_of_str s with
             | Ok n => (tuple_getitem default_hosts (n - 1), σ)
             | Raise e => (Raise e, σ)
             end
      else
        (* override is not None *)
        JumpHost_ s
  | None_ =>
      let! default_host_list := shuffle default_hosts in
      let! chosen :=
        try_function_on_any (λ jh, connect jh) default_host_list in
      (* host, _ = ... *)
      ret chosen.1
  end.

End methods.
End Host.

(** ** The fan-out: [run_in_parallel] *)

Module Parallel.

(** The exception raised by [await loop.run_in_executor(executor, call)]
    when [call] raised [e] in its thread.  On its way from the future of the
    pool to the future of the loop an exception whose class is exactly
    [TimeoutError] is replaced by a new [TimeoutError] with the arguments
    of [e] and no cause; any other exception is passed as it is. *)
Definition received (e : exn) : exn :=
  match exn_class e with
  | TimeoutError => Exn TimeoutError (exn_args e) None
  | _ => e
  end.

(** The future of the loop refuses an exception whose class is exactly
    [StopIteration]: it stays pending, and the [await] never completes. *)
Definition arrives (e : exn) : bool :=
  match exn_class e with
  | StopIteration => false
  | _ => true
  end.

Section parallel.
(** [K] is the type of the operands, which are the keys of the result and so
    hashable; [R] the type of the values [operator_func] returns.  The
    operator is a function of its operand alone. *)
Context {K R : Type} `{Countable K}.

(** A value of the result: what the operator returned, or the exception it
    raised, kept as a value. *)
Inductive value : Type :=
  | Returned (r : R)
  | Captured (e : exn).

Variable operator_func : K → outcome R.

(** [await loop.run_in_executor(executor, lambda: operator_func(op))] *)
Definition run_in_executor (op : K) : awaited R :=
  match operator_func op with
  | Ok result => Done (Ok result)
  | Raise e => if arrives e then Done (Raise (received e)) else Never
  end.

(** The inner [coroutine(op, loop, executor)]. *)
Definition coroutine (return_exceptions : bool) (op : K)
    : awaited (K * value) :=
  match run_in_executor op with
  | Done (Ok result) => Done (Ok (op, Returned result))
  | Done (Raise e) =>
      if return_exceptions then Done (Ok (op, Captured e))
      else Done (Raise e)
  | Never => Never
  end.

(** [ThreadPoolExecutor(max_workers=n)] refuses [n <= 0]. *)
Definition ThreadPoolExecutor (max_workers : Z) : outcome unit :=
  if max_workers <=? 0
  then Raise (Exn ValueError ["max_workers must be greater than 0"] None)
  else Ok tt.

(** The first exception among the tasks, taken in the order in which they
    complete; [completion] lists the positions of the tasks in that order. *)
Fixpoint first_exception {A} (tasks : list (awaited A))
    (completion : list nat) : option exn :=
  match completion with
  | [] => None
  | i :: later =>
      match tasks !! i with
      | Some (Done (Raise e)) => Some e
      | _ => first_exception tasks later
      end
  end.

(** What the tasks give together once [completion] is exhausted: the
    exception of the first task, in the order of the arguments, that raised
    (a task that [completion] leaves out completes after those it lists);
    nothing when no task raised and one never completes; otherwise the
    results in the order of the arguments. *)
Fixpoint results_of {A} (tasks : list (awaited A)) : awaited (list A) :=
  match tasks with
  | [] => Done (Ok [])
  | Done (Ok a) :: rest =>
      match results_of rest with
      | Done (Ok l) => Done (Ok (a :: l))
      | other => other
      end
  | Done (Raise e) :: _ => Done (Raise e)
  | Never :: rest =>
      match results_of rest with
      | Done (Raise e) => Done (Raise e)
      | _ => Never
      end
  end.

(** [await asyncio.gather] over the tasks: the first exception raised by a
    task is raised to the caller; when no task raises, the list of the
    results, in the order of the arguments, once every task is complete. *)
Definition gather {A} (tasks : list (awaited A)) (completion : list nat)
    : awaited (list A) :=
  match first_exception tasks completion with
  | Some e => Done (Raise e)
  | None => results_of tasks
  end.

(** [dict(results)]: a later pair replaces an earlier one with the same
    key. *)
Definition dict {V} (results : list (K * V)) : gmap K V :=
  foldl (λ m kv, <[kv.1:=kv.2]> m) ∅ results.

(** The inner [gather_results()]. *)
Definition gather_results (operands : list K) (return_exceptions : bool)
    (completion : list nat) : awaited (list (K * value)) :=
  match ThreadPoolExecutor (Z.of_nat (length operands)) with
  | Raise e => Done (Raise e)
  | Ok _ => gather (map (coroutine return_exceptions) operands) completion
  end.

Definition run_in_parallel (operands : list K) (return_exceptions : bool)
    (completion : list nat) : awaited (gmap K value) :=
  match gather_results operands return_exceptions completion with
  | Done (Ok results) => Done (Ok (dict results))
  | Done (Raise e) => Done (Raise e)
  | Never => Never
  end.

End parallel.
End Parallel.

(** ** [ContainerController.put] of [darmstadt/remote_controller.py] *)

(** [os.path.split] and [os.path.basename], as [posixpath] defines them. *)
Module Posixpath.

Definition sep : ascii := "/"%char.

(** [p.rfind(sep)], for [p] read from position [i] on, [found] being the
    last position seen so far. *)
Fixpoint rfind_from (p : list ascii) (i : nat) (found : Z) : Z :=
  match p with
  | [] => found
  | c :: p' =>
      rfind_from p' (Datatypes.S i)
        (if Ascii.eqb c sep then Z.of_nat i else found)
  end.

Definition rfind (p : list ascii) : Z := rfind_from p 0 (-1).

(** [head.rstrip(sep)] *)
Fixpoint rstrip (p : list ascii) : list ascii :=
  match p with
  | [] => []
  | c :: p' =>
      match rstrip p' with
      | [] => if Ascii.eqb c sep then [] else [c]
      | r => c :: r
      end
  end.

Definition split (p : string) : string * string :=
  let cs := list_ascii_of_string p in
  let i := Z.to_nat (rfind cs + 1) in
  let head := take i cs in
  let tail := drop i cs in
  let head :=
    if negb (bool_decide (head = []))
       && negb (bool_decide (head = replicate (length head) sep))
    then rstrip head else head in
  (string_of_list_ascii head, string_of_list_ascii tail).

Definition basename (p : string) : string :=
  let cs := list_ascii_of_string p in
  string_of_list_ascii (drop (Z.to_nat (rfind cs + 1)) cs).

End Posixpath.

(** What [remote_controller.py] takes from other libraries: the context a
    controller runs its commands through, the local file system, the clock
    and [tarfile]. *)
Class Controller_externals : Type := {
  Context_ : Type;
  Result : Type;
  Env : Type;
  (** [context.run(command, in_stream=stream)] *)
  context_run :
    Context_ → string → list Byte.byte → Env → outcome (option Result) * Env;
  (** [open(local, "rb")] followed by [f.read()] *)
  read_file : string → Env → outcome (list Byte.byte) * Env;
  (** [s.encode("utf-8")] *)
  encode_utf8 : string → list Byte.byte;
  (** [int(time.time())] *)
  time_now : Env → Z * Env;
  (** The archive written by [TarFile.addfile] for one member with the given
      name, size and modification time, and the given content. *)
  tar_of : string → nat → Z → list Byte.byte → list Byte.byte;
  (** [Runner.input_sleep = 0] *)
  set_input_sleep_0 : Env → Env;
}.

Module Controller.
Section controller.
Context `{Controller_externals}.

Record ContainerController : Type := {
  name : string;
  container_image : string;
  context : Context_;
}.

(** The values [put] tells apart in [local]: a path, a [StringIO] or a
    [BytesIO] with what [read()] gives, or any other object. *)
Inductive local_value : Type :=
  | Path (p : string)
  | StringIO (content : string)
  | BytesIO (content : list Byte.byte)
  | Other_object.

Definition is_str (local : local_value) : bool :=
  match local with Path _ => true | _ => false end.

(** The command line of [put]. *)
Definition put_command (name remote_path : string) : string :=
  String.append "docker exec --interactive "
    (String.append name
       (String.append " tar x -C " (String.append remote_path " -f -"))).

(** [ContainerController.put] *)
Definition put (self : ContainerController) (local : local_value)
    (remote : option string) (w : Env) : outcome (option Result) * Env :=
  let '(remote_path, remote_name) :=
    match remote with
    | Some r => Posixpath.split r
    | None => ("", "")
    end in
  let remote_name :=
    match local with
    | Path p =>
        if String.eqb remote_name "" then Posixpath.basename p
        else remote_name
    | _ => remote_name
    end in
  let remote_path :=
    if String.eqb remote_path "" then "." else remote_path in
  let '(file_data, w1) :=
    match local with
    | Path p => read_file p w
    | StringIO content => (Ok (encode_utf8 content), w)
    | BytesIO content => (Ok content, w)
    | Other_object => (Ok [], w)
    end in
  match file_data with
  | Raise e => (Raise e, w1)
  | Ok file_data =>
      let '(mtime, w2) := time_now w1 in
      let pw_tarstream :=
        tar_of remote_name (length file_data) mtime file_data in
      let w3 := set_input_sleep_0 w2 in
      context_run (context self) (put_command (name self) remote_path)
        pw_tarstream w3
  end.

End controller.
End Controller.

(** * Vocabulary of the properties, and fixtures *)

(** ** Failover *)

(** A unit of work for the examples: the state counts the calls; the work
    returns on candidate 3, times out on candidate 2 and divides by zero on
    every other candidate. *)
Definition sample_work (host : ref) (calls : nat) : outcome string * nat :=
  if bool_decide (host = 3%positive) then (Ok "up", Datatypes.S calls)
  else if bool_decide (host = 2%positive)
  then (Raise (Exn socket_timeout [] None), Datatypes.S calls)
  else (Raise (Exn ZeroDivisionError ["division by zero"] None),
        Datatypes.S calls).

Definition silent (_ : log_entry) (calls : nat) : nat := calls.


(** A unit of work that raises what the loop raises for an empty list. *)
Definition no_hosts_work (_ : ref) (σ : unit) : outcome unit * unit :=
  (Raise (Exception "No hosts provided"), σ).

(** ** Caches *)

(** The body of the [try] of [connect], as a call into the libraries: the
    factory, then [open()] on what it returned. *)
Definition open_connection `{Externals} (jh : Host.JumpHost)
    : World → outcome Conn * World :=
  λ w, match Host.connection_func jh (Host.host jh) w with
       | (Ok connection, w1) =>
           match conn_open connection w1 with
           | (Ok _, w2) => (Ok connection, w2)
           | (Raise e, w2) => (Raise e, w2)
           end
       | (Raise e, w1) => (Raise e, w1)
       end.

(** The exception classes the [except] clauses of [connect] name, and those
    of [docker_client]. *)
Definition caught_by_connect (e : exn) : bool :=
  isinstance e socket_gaierror || isinstance e socket_timeout
  || isinstance e AuthenticationException.

Definition caught_by_docker_client (e : exn) : bool :=
  isinstance e socket_gaierror || isinstance e TimeoutError
  || isinstance e AuthenticationException.

(** [n] calls of a method, one after the other: the outcomes, in order, and
    the state after the last call. *)
Fixpoint consecutive_calls `{Externals} {A} (m : Host.M A) (n : nat)
    (σ : Host.state) : list (outcome A) * Host.state :=
  match n with
  | O => ([], σ)
  | Datatypes.S n' =>
      let '(o, σ1) := m σ in
      let '(os, σ2) := consecutive_calls m n' σ1 in
      (o :: os, σ2)
  end.

(** ** The hosts of [tests/test_jump_host.py] *)

Module Tests.

(** Libraries for the examples.  A connection is [None], or [Some c] for a
    mock whose [open()] raises an exception of class [c]; the world counts
    the calls made into the libraries. *)
Definition test_externals : Externals := {|
  Conn := option pyclass;
  Client := string;
  World := nat;
  fabric_Connection := λ _ w, (Ok None, Datatypes.S w);
  conn_open := λ c w,
    match c with
    | None => (Ok tt, Datatypes.S w)
    | Some k => (Raise (Exn k [] None), Datatypes.S w)
    end;
  docker_from_env := λ o w, (Ok (default "unix://" o), Datatypes.S w);
  invoke_Context := λ w, (None, Datatypes.S w);
  randbelow := λ _ w, (0%nat, Datatypes.S w);
  randbelow_lt := λ _ _ Hn, Hn;
|}.

#[local] Existing Instance test_externals.

(** [mock_connect(open_exception)] *)
Definition mock_connect (open_exception : pyclass) (_ : string) (w : nat)
    : outcome (option pyclass) * nat :=
  (Ok (Some open_exception), Datatypes.S w).

(** [Mock(side_effect=c)] *)
Definition mock_side_effect (c : pyclass) (_ : string) (w : nat)
    : outcome string * nat :=
  (Raise (Exn c [] None), Datatypes.S w).

Definition GOOD_HOST : Host.JumpHost :=
  Host.init Host.LocalHost_class "losalhost" fabric_Connection
    Host._remote_docker_connection.

Definition BAD_HOST_BAD_CODE : Host.JumpHost :=
  Host.init Host.JumpHost_class "fakehost" (mock_connect ZeroDivisionError)
    Host._remote_docker_connection.

Definition BAD_HOST_TIMEOUT : Host.JumpHost :=
  Host.init Host.JumpHost_class "fakehost" (mock_connect socket_timeout)
    (mock_side_effect TimeoutError).

Definition BAD_HOST_DNS_FAILURE : Host.JumpHost :=
  Host.init Host.JumpHost_class "fakehost" (mock_connect socket_gaierror)
    (mock_side_effect socket_gaierror).

Definition BAD_HOST_AUTH_FAILURE : Host.JumpHost :=
  Host.init Host.JumpHost_class "fakehost"
    (mock_connect AuthenticationException)
    (mock_side_effect AuthenticationException).

(** A host that can be reached, of class [JumpHost]. *)
Definition REMOTE_HOST : Host.JumpHost :=
  Host.init Host.JumpHost_class "build-host" fabric_Connection
    Host._remote_docker_connection.

(** References 1 and 2 are the two good hosts, 3 to 6 the bad ones, in the
    order of the test module; 7 is [REMOTE_HOST]. *)
Definition test_heap : gmap ref Host.JumpHost :=
  <[1%positive := GOOD_HOST]> (<[2%positive := GOOD_HOST]>
  (<[3%positive := BAD_HOST_BAD_CODE]> (<[4%positive := BAD_HOST_TIMEOUT]>
  (<[5%positive := BAD_HOST_DNS_FAILURE]>
  (<[6%positive := BAD_HOST_AUTH_FAILURE]>
  (<[7%positive := REMOTE_HOST]> ∅)))))).

Definition test_state : Host.state :=
  {| Host.heap := test_heap; Host.world := 0%nat; Host.logs := [] |}.

End Tests.

(** ** Fan-out *)

(** The operators of the doctests of [run_in_parallel]. *)
Definition square (x : Z) : outcome Z := Ok (x * x).

Definition two_over (x : Z) : outcome Q :=
  if x =? 0
  then Raise (Exn ZeroDivisionError ["division by zero"] None)
  else Ok (2 / inject_Z x)%Q.





(** ** Further vocabulary *)

(** A log kept next to the state: [recorded_logging] appends to it, and the
    work, which has no access to it, leaves it as it is. *)
Definition recorded_logging {S : Type} (l : log_entry)
    (st : S * list log_entry) : S * list log_entry :=
  (st.1, st.2 ++ [l]).

Definition unlogged {S R : Type} (func : ref → S → outcome R * S)
    (host : ref) (st : S * list log_entry)
    : outcome R * (S * list log_entry) :=
  let '(o, σ1) := func host st.1 in (o, (σ1, st.2)).

(** [failed_with func fs σ σ']: the work, tried from state [σ] on the
    candidates of [fs] in turn, raises on each the exception paired with
    it. *)
Inductive failed_with {S R : Type} (func : ref → S → outcome R * S)
    : list (ref * exn) → S → S → Prop :=
  | failed_with_nil σ : failed_with func [] σ σ
  | failed_with_cons host e rest σ σ1 σ' :
      func host σ = (Raise e, σ1) →
      failed_with func rest σ1 σ' →
      failed_with func ((host, e) :: rest) σ σ'.

(** The exception the loop raises after the failures [fs]. *)
Definition raised_after (fs : list (ref * exn)) : exn :=
  match last fs with
  | Some (_, e) =>
      if truthy_exn e then e else Exception "No hosts provided"
  | None => Exception "No hosts provided"
  end.

(** [jh'] is [jh] with, at most, caches filled that were empty. *)
Definition cache_extends `{Externals} (jh jh' : Host.JumpHost) : Prop :=
  Host.class_of jh' = Host.class_of jh
  ∧ Host.host jh' = Host.host jh
  ∧ Host.connection_func jh' = Host.connection_func jh
  ∧ Host.docker_client_func jh' = Host.docker_client_func jh
  ∧ (∀ c, Host.cached_connection jh = Some c →
          Host.cached_connection jh' = Some c)
  ∧ (∀ c, Host.cached_docker_client jh = Some c →
          Host.cached_docker_client jh' = Some c).

(** Every object of [σ] is an object of [σ'], up to [cache_extends]. *)
Definition store_extends `{Externals} (σ σ' : Host.state) : Prop :=
  ∀ l jh, Host.heap σ !! l = Some jh →
    ∃ jh', Host.heap σ' !! l = Some jh' ∧ cache_extends jh jh'.

(** A host on which [connect] cannot raise: a [LocalHost], or a [JumpHost]
    with a connection in its cache. *)
Definition surely_connects `{Externals} (jh : Host.JumpHost) : Prop :=
  Host.class_of jh = Host.LocalHost_class
  ∨ ∃ c, Host.cached_connection jh = Some c.

Module More_tests.
#[local] Existing Instance Tests.test_externals.

(** A host whose factory times out on the first call into the libraries and
    connects afterwards. *)
Definition flaky_connect (_ : string) (w : nat)
    : outcome (option pyclass) * nat :=
  if (w =? 0)%nat then (Raise (Exn socket_timeout [] None), Datatypes.S w)
  else (Ok None, Datatypes.S w).

Definition FLAKY_HOST : Host.JumpHost :=
  Host.init Host.JumpHost_class "flaky" flaky_connect
    Host._remote_docker_connection.

Definition flaky_state : Host.state :=
  {| Host.heap := <[1%positive := FLAKY_HOST]> ∅; Host.world := 0%nat;
     Host.logs := [] |}.

(** Libraries that number the contexts, connections and clients they make,
    in the order in which they make them. *)
Definition numbering_externals : Externals := {|
  Conn := nat;
  Client := nat;
  World := nat;
  fabric_Connection := λ _ w, (Ok w, Datatypes.S w);
  conn_open := λ _ w, (Ok tt, w);
  docker_from_env := λ _ w, (Ok w, Datatypes.S w);
  invoke_Context := λ w, (w, Datatypes.S w);
  randbelow := λ _ w, (0%nat, w);
  randbelow_lt := λ _ _ Hn, Hn;
|}.

(** The state in which no object has been made yet. *)
Definition initial_state : @Host.state numbering_externals :=
  @Host.Build_state numbering_externals ∅ 0%nat [].


End More_tests.

Module Controller_tests.

(** Libraries for the examples: the environment is the list of the commands
    run so far, each with its input; an archive is shown as the name of its
    member followed by its content; there is no local file but [myfile]. *)
Definition bytes_of (s : string) : list Byte.byte :=
  map byte_of_ascii (list_ascii_of_string s).

Definition test_controller_externals : Controller_externals := {|
  Context_ := unit;
  Result := unit;
  Env := list (string * list Byte.byte);
  context_run := λ _ command input env,
    (Ok (Some tt), env ++ [(command, input)]);
  read_file := λ p env,
    if String.eqb (Posixpath.basename p) "myfile"
    then (Ok (bytes_of "this is my file"), env)
    else (Raise (Exn OSError ["No such file or directory"] None), env);
  encode_utf8 := bytes_of;
  time_now := λ env, (0, env);
  tar_of := λ name _ _ data, bytes_of name ++ data;
  set_input_sleep_0 := λ env, env;
|}.

Definition mycsar : @Controller.ContainerController
                      test_controller_externals :=
  @Controller.Build_ContainerController test_controller_externals
    "mycsar" "alpine" tt.

End Controller_tests.

(** * Properties *)

(** ** The failover loop *)

Section failover_facts.
Context {S R : Type}.
Variable logging : log_entry → S → S.
Variable func : ref → S → outcome R * S.

Local Abbreviation for_host_in := (Failover.for_host_in logging func).
Local Abbreviation failed_run := (Failover.failed_run logging func).

Lemma for_host_in_raise host rest last σ e σ1 :
  func host σ = (Raise e, σ1) →
  for_host_in (host :: rest) last σ
  = for_host_in rest (Some e) (logging (Failover.failover_warning host e) σ1).
Proof.
  intros Hf. simpl. rewrite Hf.
  unfold Failover.failover_warning.
  by destruct (isinstance e ConnectionError).
Qed.

(** A run of failures over a prefix of the list hands the rest of the list
    to the loop, with the last exception and the state it left. *)
Lemma for_host_in_failed pre post σ last σ' last' :
  failed_run pre σ last σ' last' →
  for_host_in (pre ++ post) last σ = for_host_in post last' σ'.
Proof.
  induction 1 as [|host rest σ last e σ1 σ' last' Hf _ IH]; [done|].
  rewrite <- app_comm_cons, (for_host_in_raise _ _ _ _ _ _ Hf). exact IH.
Qed.

Lemma failed_run_app pre post σ last σ1 last1 σ2 last2 :
  failed_run pre σ last σ1 last1 →
  failed_run post σ1 last1 σ2 last2 →
  failed_run (pre ++ post) σ last σ2 last2.
Proof.
  induction 1 as [|host rest σ last e σ1 σ' last' Hf _ IH]; [done|].
  intros Hpost. rewrite <- app_comm_cons.
  eapply Failover.failed_cons; [exact Hf|]. by apply IH.
Qed.

(** Every list of candidates either has a first candidate on which the work
    returns, after a run of failures, or is a run of failures as a whole. *)
Lemma first_success_or_all_fail hosts σ last :
  (∃ pre host post σ1 last1 result σ2,
     hosts = pre ++ host :: post ∧
     failed_run pre σ last σ1 last1 ∧
     func host σ1 = (Ok result, σ2))
  ∨ (∃ σ' last', failed_run hosts σ last σ' last').
Proof.
  revert σ last. induction hosts as [|host rest IH]; intros σ last.
  - right. exists σ, last. constructor.
  - destruct (func host σ) as [[result|e] σ1] eqn:Hf.
    + left. exists [], host, rest, σ, last, result, σ1.
      split; [done|]. split; [constructor | exact Hf].
    + destruct (IH (logging (Failover.failover_warning host e) σ1) (Some e))
        as [(pre & h & post & σ2 & last2 & result & σ3 & -> & Hrun & Hok)
           |(σ' & last' & Hrun)].
      * left. exists (host :: pre), h, post, σ2, last2, result, σ3.
        split; [done|]. split; [|exact Hok].
        eapply Failover.failed_cons; eauto.
      * right. exists σ', last'. eapply Failover.failed_cons; eauto.
Qed.

End failover_facts.

Section trace_facts.
Context {S R : Type}.
Variable logging : log_entry → S → S.
Variable func : ref → S → outcome R * S.

Local Abbreviation traced_logging := (Trace.traced_logging logging).
Local Abbreviation traced_func := (Trace.traced_func func).

(** A run of failures of the work is a run of failures of the recorded
    work, and the record grows by the candidates of the run, in order. *)
Lemma failed_run_traced hosts σ last σ' last' calls :
  Failover.failed_run logging func hosts σ last σ' last' →
  Failover.failed_run traced_logging traced_func hosts (σ, calls) last
    (σ', calls ++ hosts) last'.
Proof.
  intros Hrun. revert calls.
  induction Hrun as [|host rest σ last e σ1 σ' last' Hf _ IH]; intros calls.
  - rewrite app_nil_r. constructor.
  - econstructor.
    + unfold Trace.traced_func; simpl. rewrite Hf. reflexivity.
    + unfold Trace.traced_logging; simpl.
      replace (calls ++ host :: rest) with ((calls ++ [host]) ++ rest)
        by (by rewrite <- app_assoc).
      apply IH.
Qed.

(** Erasing the record of calls gives back the run of the plain work. *)
Lemma for_host_in_erase hosts last σ calls :
  let r := Failover.for_host_in traced_logging traced_func hosts last
             (σ, calls) in
  (r.1, r.2.1) = Failover.for_host_in logging func hosts last σ.
Proof.
  cbv zeta. revert last σ calls.
  induction hosts as [|host rest IH]; intros last σ calls; simpl.
  - destruct last as [e|]; [destruct (truthy_exn e)|]; reflexivity.
  - unfold Trace.traced_func; simpl.
    destruct (func host σ) as [[result|e] σ1]; simpl; [done|].
    destruct (isinstance e ConnectionError); apply IH.
Qed.

(** The work is only ever called on a prefix of the candidate list, in the
    order of the list. *)
Lemma for_host_in_calls_prefix hosts last σ calls :
  ∃ called rest,
    hosts = called ++ rest ∧
    (Failover.for_host_in traced_logging traced_func hosts last
       (σ, calls)).2.2 = calls ++ called.
Proof.
  revert last σ calls.
  induction hosts as [|host tl IH]; intros last σ calls; simpl.
  - exists [], []. split; [done|].
    rewrite app_nil_r.
    by destruct last as [e|]; [destruct (truthy_exn e)|].
  - unfold Trace.traced_func; simpl.
    destruct (func host σ) as [[result|e] σ1]; simpl.
    + by exists [host], tl.
    + assert (Hstep : ∀ l, ∃ called rest,
                host :: tl = called ++ rest ∧
                (Failover.for_host_in traced_logging traced_func tl
                   (Some e) (traced_logging l (σ1, calls ++ [host]))).2.2
                = calls ++ called).
      { intros l. unfold Trace.traced_logging at 2; simpl.
        destruct (IH (Some e) (logging l σ1) (calls ++ [host]))
          as (called & rest & Htl & Hcalls).
        exists (host :: called), rest. split; [by rewrite Htl|].
        rewrite Hcalls. by rewrite <- app_assoc. }
      destruct (isinstance e ConnectionError); apply Hstep.
Qed.

End trace_facts.

Section failover_claims.
Context {S R : Type}.
Variable logging : log_entry → S → S.
Variable func : ref → S → outcome R * S.

(** C1.  Let the work raise on every candidate of [pre], tried in turn from
    state [σ], and return [result] on [host] in the state [σ1] those failures
    left.  Then on the list [pre ++ host :: post], whatever [post] is,
    [try_function_on_any] returns the pair [(host, result)] in the state the
    successful call left, and the calls of the work are exactly those on
    [pre ++ [host]], in the order of the list: none on a candidate of
    [post]. *)
Theorem try_function_on_any_first_success
    (pre post : list ref) (host : ref) (σ σ1 σ2 : S) (last1 : option exn)
    (result : R) :
  Failover.failed_run logging func pre σ None σ1 last1 →
  func host σ1 = (Ok result, σ2) →
  Failover.try_function_on_any logging func (pre ++ host :: post) σ
  = (Ok (host, result), σ2)
  ∧ Failover.try_function_on_any (Trace.traced_logging logging)
      (Trace.traced_func func) (pre ++ host :: post) (σ, [])
    = (Ok (host, result), (σ2, pre ++ [host])).
Proof.
  intros Hrun Hok. unfold Failover.try_function_on_any. split.
  - rewrite (for_host_in_failed _ _ _ _ _ _ _ _ Hrun). simpl. by rewrite Hok.
  - rewrite (for_host_in_failed _ _ _ _ _ _ _ _
               (failed_run_traced _ _ _ _ _ _ _ [] Hrun)).
    simpl. unfold Trace.traced_func; simpl. by rewrite Hok.
Qed.


(** C3, as the code has it.  On an empty candidate list
    [try_function_on_any] logs the error and raises
    [Exception("No hosts provided")] without calling the work.  The class of
    that exception is [Exception] itself, of which every exception is an
    instance: there is no class of its own for this failure. *)
Theorem try_function_on_any_no_hosts (σ : S) :
  Failover.try_function_on_any logging func [] σ
  = (Raise (Exception "No hosts provided"),
     logging Error_unable_to_connect σ)
  ∧ Failover.try_function_on_any (Trace.traced_logging logging)
      (Trace.traced_func func) [] (σ, [])
    = (Raise (Exception "No hosts provided"),
       (logging Error_unable_to_connect σ, []))
  ∧ ∀ e : exn,
      isinstance e (exn_class (Exception "No hosts provided")) = true.
Proof.
  repeat split. intros [c args cause].
  unfold isinstance, issubclass; simpl. apply bool_decide_eq_true.
  destruct c; simpl; set_solver.
Qed.

End failover_claims.

Lemma sample_failed_run :
  Failover.failed_run silent sample_work [1; 2]%positive 0%nat None 2%nat
    (Some (Exn socket_timeout [] None)).
Proof. repeat econstructor. Qed.

Lemma try_function_on_any_first_success_witness :
  Failover.try_function_on_any silent sample_work [1; 2; 3; 4]%positive 0%nat
  = (Ok (3%positive, "up"), 3%nat)
  ∧ Failover.try_function_on_any (Trace.traced_logging silent)
      (Trace.traced_func sample_work) [1; 2; 3; 4]%positive (0%nat, [])
    = (Ok (3%positive, "up"), (3%nat, [1; 2; 3]%positive)).
Proof.
  apply (try_function_on_any_first_success silent sample_work
           [1; 2]%positive [4%positive] 3%positive 0%nat 2%nat 3%nat
           (Some (Exn socket_timeout [] None)) "up").
  - exact sample_failed_run.
  - reflexivity.
Defined.



(** C3, as the spec has it, fails: a list of one candidate on which the work
    raises [Exception("No hosts provided")] is a list on which every
    candidate fails, and the failure raised for it is the very one raised
    for the empty list. *)
Lemma no_hosts_failure_not_distinct :
  Failover.failed_run (λ _ σ, σ) no_hosts_work [1%positive] tt None tt
    (Some (Exception "No hosts provided"))
  ∧ (Failover.try_function_on_any (λ _ σ, σ) no_hosts_work [1%positive] tt).1
    = (Failover.try_function_on_any (λ _ σ, σ) no_hosts_work [] tt).1.
Proof. split; [repeat econstructor | reflexivity]. Qed.

(** ** The caches of [connect] and [docker_client] *)

Ltac unfold_methods :=
  unfold Host.connect, Host.docker_client, Host.JumpHost_connect,
    Host.JumpHost_docker_client, Host.LocalHost_connect,
    Host.LocalHost_docker_client, Host.bind, Host.ret, Host.raise,
    Host.try_except, Host.extern, Host.log, Host.logging, Host.deref,
    Host.update in *;
  simpl in *.

Section cache_facts.
Context `{Externals}.
Import Host.

Lemma connect_cached self σ jh c :
  heap σ !! self = Some jh →
  class_of jh = JumpHost_class →
  cached_connection jh = Some c →
  connect self σ = (Ok c, σ).
Proof.
  intros Hself Hclass Hcached. unfold_methods.
  rewrite Hself, Hclass, Hself, Hcached. reflexivity.
Qed.

Lemma docker_client_cached self σ jh c :
  heap σ !! self = Some jh →
  class_of jh = JumpHost_class →
  cached_docker_client jh = Some c →
  docker_client self σ = (Ok c, σ).
Proof.
  intros Hself Hclass Hcached. unfold_methods.
  rewrite Hself, Hclass, Hself, Hcached. reflexivity.
Qed.

(** [connect] on an object without a cached connection, by the outcome of
    the body of its [try]. *)
Lemma connect_uncached self σ jh :
  heap σ !! self = Some jh →
  class_of jh = JumpHost_class →
  cached_connection jh = None →
  match open_connection jh (world σ) with
  | (Ok c, w) =>
      connect self σ
      = (Ok c, {| heap := alter (set_cached_connection c) self (heap σ);
                  world := w;
                  logs := logs σ ++ [Debug_connected (host jh)] |})
  | (Raise e, w) =>
      ∃ l, connect self σ
           = (Raise (if caught_by_connect e
                     then raise_from ConnectionError e else e),
              {| heap := heap σ; world := w; logs := logs σ ++ l |})
  end.
Proof.
  intros Hself Hclass Hcached. unfold open_connection, caught_by_connect.
  unfold_methods. rewrite Hself, Hclass, Hself, Hcached.
  destruct (connection_func jh (host jh) (world σ)) as [[c|e] w1]; simpl.
  - destruct (conn_open c w1) as [[[]|e] w2]; simpl; [done|].
    destruct (isinstance e socket_gaierror); simpl; [by eexists [_]|].
    destruct (isinstance e socket_timeout); simpl; [by eexists [_]|].
    destruct (isinstance e AuthenticationException); simpl; [by eexists [_]|].
    exists []. by rewrite app_nil_r.
  - destruct (isinstance e socket_gaierror); simpl; [by eexists [_]|].
    destruct (isinstance e socket_timeout); simpl; [by eexists [_]|].
    destruct (isinstance e AuthenticationException); simpl; [by eexists [_]|].
    exists []. by rewrite app_nil_r.
Qed.

Lemma docker_client_uncached self σ jh :
  heap σ !! self = Some jh →
  class_of jh = JumpHost_class →
  cached_docker_client jh = None →
  match docker_client_func jh (host jh) (world σ) with
  | (Ok c, w) =>
      docker_client self σ
      = (Ok c, {| heap := alter (set_cached_docker_client c) self (heap σ);
                  world := w;
                  logs := logs σ ++ [Debug_docker_client_connected (host jh)]
                |})
  | (Raise e, w) =>
      ∃ l, docker_client self σ
           = (Raise (if caught_by_docker_client e
                     then raise_from ConnectionError e else e),
              {| heap := heap σ; world := w; logs := logs σ ++ l |})
  end.
Proof.
  intros Hself Hclass Hcached. unfold caught_by_docker_client.
  unfold_methods. rewrite Hself, Hclass, Hself, Hcached.
  destruct (docker_client_func jh (host jh) (world σ)) as [[c|e] w1]; simpl;
    [done|].
  destruct (isinstance e socket_gaierror); simpl; [by eexists [_]|].
  destruct (isinstance e TimeoutError); simpl; [by eexists [_]|].
  destruct (isinstance e AuthenticationException); simpl; [by eexists [_]|].
  exists []. by rewrite app_nil_r.
Qed.

(** A successful [connect] leaves its result in the cache of the object. *)
Lemma connect_caches self σ jh c σ1 :
  heap σ !! self = Some jh →
  class_of jh = JumpHost_class →
  connect self σ = (Ok c, σ1) →
  ∃ jh1, heap σ1 !! self = Some jh1 ∧ class_of jh1 = JumpHost_class
         ∧ cached_connection jh1 = Some c.
Proof.
  intros Hself Hclass Hcall.
  destruct (cached_connection jh) as [c0|] eqn:Hcached.
  - rewrite (connect_cached _ _ _ _ Hself Hclass Hcached) in Hcall.
    injection Hcall as -> ->. by exists jh.
  - pose proof (connect_uncached _ _ _ Hself Hclass Hcached) as Hun.
    destruct (open_connection jh (world σ)) as [[c1|e] w].
    + rewrite Hun in Hcall. injection Hcall as Hc Hσ. subst c1 σ1. simpl.
      exists (set_cached_connection c jh).
      rewrite lookup_alter_eq, Hself. done.
    + destruct Hun as [l Hun]. rewrite Hun in Hcall. discriminate.
Qed.

Lemma docker_client_caches self σ jh c σ1 :
  heap σ !! self = Some jh →
  class_of jh = JumpHost_class →
  docker_client self σ = (Ok c, σ1) →
  ∃ jh1, heap σ1 !! self = Some jh1 ∧ class_of jh1 = JumpHost_class
         ∧ cached_docker_client jh1 = Some c.
Proof.
  intros Hself Hclass Hcall.
  destruct (cached_docker_client jh) as [c0|] eqn:Hcached.
  - rewrite (docker_client_cached _ _ _ _ Hself Hclass Hcached) in Hcall.
    injection Hcall as -> ->. by exists jh.
  - pose proof (docker_client_uncached _ _ _ Hself Hclass Hcached) as Hun.
    destruct (docker_client_func jh (host jh) (world σ)) as [[c1|e] w].
    + rewrite Hun in Hcall. injection Hcall as Hc Hσ. subst c1 σ1. simpl.
      exists (set_cached_docker_client c jh).
      rewrite lookup_alter_eq, Hself. done.
    + destruct Hun as [l Hun]. rewrite Hun in Hcall. discriminate.
Qed.

Lemma consecutive_calls_fixed {A} (m : M A) (a : A) σ n :
  m σ = (Ok a, σ) →
  consecutive_calls m n σ = (replicate n (Ok a), σ).
Proof.
  intros Hm. induction n as [|n IH]; simpl; [done|].
  by rewrite Hm, IH.
Qed.

End cache_facts.


Section cache_claims.
Context `{Externals}.
Import Host.

(** C5, as the code has it.  Take an object of class [JumpHost] with no
    cached connection, and let the factory or [open()] raise [e].  Then
    [connect] raises: a [ConnectionError] whose cause is [e] when [e] is an
    instance of [socket.gaierror], [socket.timeout] or
    [paramiko.AuthenticationException]; [e] itself, unchanged, when it is an
    instance of none of them.  In both cases the store is as before the
    call, so the cache is still unset.  The same holds for [docker_client],
    whose clause names [TimeoutError], the same class as [socket.timeout]. *)
Theorem connect_failure_leaves_cache_unset
    (self : ref) (σ : state) (jh : JumpHost) (e : exn) (w : World) :
  heap σ !! self = Some jh →
  class_of jh = JumpHost_class →
  (cached_connection jh = None →
   open_connection jh (world σ) = (Raise e, w) →
   ∃ σ', connect self σ
         = (Raise (if caught_by_connect e
                   then raise_from ConnectionError e else e), σ')
         ∧ heap σ' = heap σ ∧ world σ' = w
         ∧ cached_connection <$> heap σ' !! self = Some None)
  ∧ (cached_docker_client jh = None →
     docker_client_func jh (host jh) (world σ) = (Raise e, w) →
     ∃ σ', docker_client self σ
           = (Raise (if caught_by_docker_client e
                     then raise_from ConnectionError e else e), σ')
           ∧ heap σ' = heap σ ∧ world σ' = w
           ∧ cached_docker_client <$> heap σ' !! self = Some None).
Proof.
  intros Hself Hclass. split; intros Hcached Hraise.
  - pose proof (connect_uncached _ _ _ Hself Hclass Hcached) as Hun.
    rewrite Hraise in Hun. destruct Hun as [l ->].
    eexists. split; [reflexivity|]. simpl.
    by rewrite Hself; simpl; rewrite Hcached.
  - pose proof (docker_client_uncached _ _ _ Hself Hclass Hcached) as Hun.
    rewrite Hraise in Hun. destruct Hun as [l ->].
    eexists. split; [reflexivity|]. simpl.
    by rewrite Hself; simpl; rewrite Hcached.
Qed.

(** C6, as the code has it.  Take an object of class [JumpHost].  When
    [connect] returns a connection [c], the object has [c] in its cache, and
    any number of
    further calls, one after the other, all return [c] and leave the state,
    the world of the libraries included, as the first call left it: the
    factory, which can only act on that world, is not called again.  The
    same holds for [docker_client]. *)
Theorem cached_handle_is_returned
    (self : ref) (σ : state) (jh : JumpHost) :
  heap σ !! self = Some jh →
  class_of jh = JumpHost_class →
  (∀ c σ1, connect self σ = (Ok c, σ1) →
     cached_connection <$> heap σ1 !! self = Some (Some c)
     ∧ ∀ n, consecutive_calls (connect self) n σ1
            = (replicate n (Ok c), σ1))
  ∧ (∀ c σ1, docker_client self σ = (Ok c, σ1) →
       cached_docker_client <$> heap σ1 !! self = Some (Some c)
       ∧ ∀ n, consecutive_calls (docker_client self) n σ1
              = (replicate n (Ok c), σ1)).
Proof.
  intros Hself Hclass. split; intros c σ1 Hcall.
  - destruct (connect_caches _ _ _ _ _ Hself Hclass Hcall)
      as (jh1 & Hself1 & Hclass1 & Hcached1).
    split; [by rewrite Hself1; simpl; rewrite Hcached1|].
    intros n. apply consecutive_calls_fixed.
    by apply (connect_cached _ _ jh1).
  - destruct (docker_client_caches _ _ _ _ _ Hself Hclass Hcall)
      as (jh1 & Hself1 & Hclass1 & Hcached1).
    split; [by rewrite Hself1; simpl; rewrite Hcached1|].
    intros n. apply consecutive_calls_fixed.
    by apply (docker_client_cached _ _ jh1).
Qed.

End cache_claims.

Lemma connect_failure_leaves_cache_unset_witness :
  let H := Tests.test_externals in
  (∃ σ', Host.connect 4%positive Tests.test_state
         = (Raise (Exn ConnectionError []
                     (Some (Exn socket_timeout [] None))), σ')
         ∧ Host.heap σ' = Tests.test_heap ∧ Host.world σ' = 2%nat
         ∧ Host.cached_connection <$> Host.heap σ' !! 4%positive
           = Some None)
  ∧ (∃ σ', Host.docker_client 4%positive Tests.test_state
           = (Raise (Exn ConnectionError []
                       (Some (Exn TimeoutError [] None))), σ')
           ∧ Host.heap σ' = Tests.test_heap ∧ Host.world σ' = 1%nat
           ∧ Host.cached_docker_client <$> Host.heap σ' !! 4%positive
             = Some None).
Proof.
  intros H.
  pose proof (λ e w, @connect_failure_leaves_cache_unset H 4%positive
                       Tests.test_state Tests.BAD_HOST_TIMEOUT e w
                       eq_refl eq_refl) as Hthm.
  split.
  - exact (proj1 (Hthm (Exn socket_timeout [] None) 2%nat) eq_refl eq_refl).
  - exact (proj2 (Hthm (Exn TimeoutError [] None) 1%nat) eq_refl eq_refl).
Defined.

(** C5, as the spec has it, fails: when [open()] raises a
    [ZeroDivisionError], as on [BAD_HOST_BAD_CODE] of the tests, [connect]
    raises that [ZeroDivisionError], not a [ConnectionError]. *)
Lemma connect_other_failure_not_wrapped :
  let H := Tests.test_externals in
  open_connection Tests.BAD_HOST_BAD_CODE 0%nat
  = (Raise (Exn ZeroDivisionError [] None), 2%nat)
  ∧ (Host.connect 3%positive Tests.test_state).1
    = Raise (Exn ZeroDivisionError [] None)
  ∧ isinstance (Exn ZeroDivisionError [] None) ConnectionError = false.
Proof. vm_compute. repeat split. Qed.

(** C6, as the spec has it, fails for a [LocalHost], which overrides both
    methods: after [LocalHost()], two calls of [connect] in a row both
    return, with two different contexts, and nothing is cached; likewise two
    calls of [docker_client] return two different clients. *)
Lemma local_host_returns_new_handles :
  let H := More_tests.numbering_externals in
  ∃ self σ0,
    Host.LocalHost_ More_tests.initial_state = (Ok self, σ0)
    ∧ (Host.connect self σ0).1 = Ok 0%nat
    ∧ (Host.connect self (Host.connect self σ0).2).1 = Ok 1%nat
    ∧ Host.cached_connection <$>
        Host.heap (Host.connect self σ0).2 !! self = Some None
    ∧ (Host.docker_client self σ0).1 = Ok 0%nat
    ∧ (Host.docker_client self (Host.docker_client self σ0).2).1 = Ok 1%nat
    ∧ Host.cached_docker_client <$>
        Host.heap (Host.docker_client self σ0).2 !! self = Some None.
Proof. intros H. eexists _, _. split; [reflexivity|]. by vm_compute. Qed.

Lemma cached_handle_is_returned_witness :
  let H := Tests.test_externals in
  let σ1 := (Host.connect 7%positive Tests.test_state).2 in
  let σ2 := (Host.docker_client 7%positive Tests.test_state).2 in
  (Host.cached_connection <$> Host.heap σ1 !! 7%positive = Some (Some None)
   ∧ consecutive_calls (Host.connect 7%positive) 3 σ1
     = ([Ok None; Ok None; Ok None], σ1))
  ∧ (Host.cached_docker_client <$> Host.heap σ2 !! 7%positive
     = Some (Some "ssh://build-host")
     ∧ consecutive_calls (Host.docker_client 7%positive) 2 σ2
       = ([Ok "ssh://build-host"; Ok "ssh://build-host"], σ2)).
Proof.
  intros H σ1 σ2.
  pose proof (@cached_handle_is_returned H 7%positive Tests.test_state
                Tests.REMOTE_HOST eq_refl eq_refl) as [Hc Hd].
  split.
  - destruct (Hc None σ1 eq_refl) as [Hcache Hcalls].
    split; [exact Hcache | exact (Hcalls 3%nat)].
  - destruct (Hd "ssh://build-host" σ2 eq_refl) as [Hcache Hcalls].
    split; [exact Hcache | exact (Hcalls 2%nat)].
Defined.

(** ** The tests of [tests/test_jump_host.py] *)

Section test_suite.
Import Tests.
#[local] Existing Instance test_externals.

(** [test_try_connect_to_any]: the first good host is returned, bad hosts are
    passed over, and with only bad hosts the last exception is raised. *)
Example test_good_host_first :
  (Host.try_connect_to_any [1; 2; 3; 4]%positive test_state).1
  = Ok (1%positive, None).
Proof. vm_compute. reflexivity. Qed.

Example test_bad_hosts_first :
  (Host.try_connect_to_any [3; 4; 2; 1]%positive test_state).1
  = Ok (2%positive, None).
Proof. vm_compute. reflexivity. Qed.

Example test_only_bad_hosts_1 :
  (Host.try_connect_to_any [4; 3]%positive test_state).1
  = Raise (Exn ZeroDivisionError [] None).
Proof. vm_compute. reflexivity. Qed.

Example test_only_bad_hosts_2 :
  (Host.try_connect_to_any [3; 4]%positive test_state).1
  = Raise (Exn ConnectionError [] (Some (Exn socket_timeout [] None))).
Proof. vm_compute. reflexivity. Qed.

(** [test_choose_from_jump_hosts] *)
Example test_choose_good_host :
  (Host.choose_from [4; 6; 1]%positive Host.None_ test_state).1
  = Ok 1%positive.
Proof. vm_compute. reflexivity. Qed.

Example test_override_by_index :
  Host.choose_from [1; 2]%positive (Host.Int 2) test_state
  = (Ok 2%positive, test_state).
Proof. reflexivity. Qed.

Example test_override_numeric_string :
  Host.choose_from [6; 1; 2]%positive (Host.Str "3") test_state
  = (Ok 2%positive, test_state).
Proof. reflexivity. Qed.

Example test_override_hostname :
  let r := Host.choose_from [1; 2]%positive (Host.Str "my-host") test_state in
  ∃ l jh, r.1 = Ok l ∧ Host.heap r.2 !! l = Some jh
          ∧ Host.host jh = "my-host".
Proof. eexists _, _. vm_compute. repeat split. Qed.

End test_suite.

(** ** [choose_from] with an override *)

Section builtin_facts.

Lemma tuple_getitem_in_range {A} (t : list A) (i : Z) :
  0 ≤ i < Z.of_nat (length t) →
  ∃ x, t !! Z.to_nat i = Some x ∧ tuple_getitem t i = Ok x.
Proof.
  intros Hi. unfold tuple_getitem.
  destruct (Z.ltb_spec i 0) as [?|_]; [lia|].
  destruct (Z.ltb_spec i 0) as [?|_]; [lia|].
  destruct (Z.leb_spec (Z.of_nat (length t)) i) as [?|_]; [lia|]. simpl.
  destruct (lookup_lt_is_Some_2 t (Z.to_nat i)) as [x Hx]; [lia|].
  exists x. by rewrite Hx.
Qed.

Lemma tuple_getitem_above {A} (t : list A) (i : Z) :
  Z.of_nat (length t) ≤ i →
  tuple_getitem t i = Raise (Exn IndexError [index_error_message i] None).
Proof.
  intros Hi. unfold tuple_getitem.
  destruct (Z.ltb_spec i 0) as [?|_]; [lia|].
  destruct (Z.ltb_spec i 0) as [?|_]; [lia|].
  by destruct (Z.leb_spec (Z.of_nat (length t)) i) as [_|?]; [|lia].
Qed.

Lemma tuple_getitem_below {A} (t : list A) (i : Z) :
  i < - Z.of_nat (length t) →
  tuple_getitem t i = Raise (Exn IndexError [index_error_message i] None).
Proof.
  intros Hi. unfold tuple_getitem.
  destruct (Z.ltb_spec i 0) as [_|?]; [|lia].
  by destruct (Z.ltb_spec (i + Z.of_nat (length t)) 0) as [_|?]; [|lia].
Qed.

(** A negative index that is not below [-len(t)] counts from the end. *)
Lemma tuple_getitem_negative {A} (t : list A) (i : Z) :
  - Z.of_nat (length t) ≤ i < 0 →
  tuple_getitem t i = tuple_getitem t (i + Z.of_nat (length t)).
Proof.
  intros Hi.
  destruct (tuple_getitem_in_range t (i + Z.of_nat (length t)))
    as (x & Hx & ->); [lia|].
  unfold tuple_getitem.
  assert (Hneg : (i <? 0) = true) by (apply Z.ltb_lt; lia).
  assert (Hpos : (i + Z.of_nat (length t) <? 0) = false)
    by (apply Z.ltb_ge; lia).
  assert (Hlt : (Z.of_nat (length t) <=? i + Z.of_nat (length t)) = false)
    by (apply Z.leb_gt; lia).
  by rewrite Hneg, Hpos, Hlt, Hx.
Qed.

Lemma is_decimal_digit_numeric (cs : list ascii) :
  forallb is_decimal_digit cs = true → forallb is_numeric_char cs = true.
Proof.
  induction cs as [|c cs IH]; simpl; [done|].
  intros [Hc Hcs]%andb_true_iff. unfold is_numeric_char at 1.
  by rewrite Hc, IH.
Qed.

Lemma length_list_ascii_of_string (s : string) :
  length (list_ascii_of_string s) = String.length s.
Proof. induction s as [|c s IH]; simpl; [done | by rewrite IH]. Qed.

(** On a non-empty string of decimal digits, no more of them than the
    limit, [isnumeric] holds and [int] returns. *)
Lemma digits_isnumeric_int (s : string) :
  s ≠ "" →
  forallb is_decimal_digit (list_ascii_of_string s) = true →
  Z.of_nat (String.length s) ≤ int_max_str_digits →
  isnumeric s = true ∧ ∃ n, int_of_str s = Ok n.
Proof.
  intros Hne Hdigits Hlen. destruct s as [|c s]; [done|]. split.
  - unfold isnumeric. by apply is_decimal_digit_numeric.
  - unfold int_of_str. rewrite Hdigits, length_list_ascii_of_string.
    assert (Hle : (int_max_str_digits <? Z.of_nat (String.length (String c s)))
                  = false) by (apply Z.ltb_ge; lia).
    rewrite Hle. simpl. eauto.
Qed.

(** Beyond the limit [int] refuses a string of decimal digits. *)
Lemma int_of_str_too_long (s : string) :
  forallb is_decimal_digit (list_ascii_of_string s) = true →
  int_max_str_digits < Z.of_nat (String.length s) →
  ∃ msg, int_of_str s = Raise (Exn ValueError msg None).
Proof.
  intros Hdigits Hlen. unfold int_of_str.
  rewrite Hdigits, length_list_ascii_of_string.
  assert (Hlt : (int_max_str_digits <? Z.of_nat (String.length s)) = true)
    by (apply Z.ltb_lt; lia).
  rewrite Hlt. destruct (negb _); simpl; by eexists.
Qed.

Example isnumeric_empty : isnumeric "" = false.
Proof. reflexivity. Qed.

Example isnumeric_negative : isnumeric "-1" = false.
Proof. reflexivity. Qed.

Example int_of_str_leading_zeros : int_of_str "007" = Ok 7.
Proof. reflexivity. Qed.

(** Superscript two is numeric but not a decimal digit: [isnumeric] accepts
    the string and [int] rejects it. *)
Example superscript_two :
  let s := String (ascii_of_nat 178) "" in
  isnumeric s = true ∧ ∃ msg, int_of_str s = Raise (Exn ValueError msg None).
Proof. split; [reflexivity | by eexists]. Qed.

End builtin_facts.

Section override_claims.
Context `{Externals}.
Import Host.

(** C4, as the code has it.  With an integer override [n] between 1 and the
    number of candidates, [choose_from] returns the candidate at position
    [n - 1] and leaves the state as it was: nothing is connected, cached or
    logged.  With an integer override above the number of candidates, or at
    most its opposite, it raises [IndexError], again in an unchanged state.
    With a non-empty string of decimal digits, no more of them than [int]
    accepts (4300), it does what it does with the integer [int] reads from
    the string. *)
Theorem choose_from_index (default_hosts : list ref) (σ : state) :
  let len := Z.of_nat (length default_hosts) in
  (∀ n, 1 ≤ n ≤ len →
     ∃ h, default_hosts !! Z.to_nat (n - 1) = Some h
          ∧ choose_from default_hosts (Int n) σ = (Ok h, σ))
  ∧ (∀ n, len < n ∨ n ≤ - len →
       ∃ msg, choose_from default_hosts (Int n) σ
              = (Raise (Exn IndexError msg None), σ))
  ∧ (∀ s, s ≠ "" →
       forallb is_decimal_digit (list_ascii_of_string s) = true →
       Z.of_nat (String.length s) ≤ int_max_str_digits →
       ∃ n, int_of_str s = Ok n
            ∧ choose_from default_hosts (Str s) σ
              = choose_from default_hosts (Int n) σ).
Proof.
  intros len. repeat split.
  - intros n Hn.
    destruct (tuple_getitem_in_range default_hosts (n - 1)) as (h & Hh & Hget);
      [lia|].
    exists h. split; [done|]. simpl. by rewrite Hget.
  - intros n [Hn|Hn]; simpl.
    + rewrite tuple_getitem_above; [by eexists|lia].
    + rewrite tuple_getitem_below; [by eexists|lia].
  - intros s Hne Hdigits Hlen.
    destruct (digits_isnumeric_int s Hne Hdigits Hlen) as [Hnum [n Hint]].
    exists n. split; [done|]. simpl. by rewrite Hnum, Hint.
Qed.

(** C9.  With a string override that [isnumeric] rejects, [choose_from]
    returns a reference to a new object, and the only change to the state is
    that this object is in the store.  The object is of class [JumpHost],
    its [host] is the string of the override, its factories are
    [fabric.Connection] and [_remote_docker_connection], and its caches are
    empty.  The reference was not bound before the call, so it differs from
    every candidate that is an object of the store.  The objects that were
    in the store, the world of the libraries and the log are as before:
    nothing is connected. *)
Theorem choose_from_hostname
    (default_hosts : list ref) (s : string) (σ : state) :
  isnumeric s = false →
  ∃ l jh,
    choose_from default_hosts (Str s) σ
    = (Ok l, {| heap := <[l := jh]> (heap σ);
                world := world σ; logs := logs σ |})
    ∧ host jh = s
    ∧ class_of jh = JumpHost_class
    ∧ connection_func jh = fabric_Connection
    ∧ docker_client_func jh = _remote_docker_connection
    ∧ cached_connection jh = None
    ∧ cached_docker_client jh = None
    ∧ heap σ !! l = None
    ∧ (∀ c, c ∈ default_hosts → is_Some (heap σ !! c) → l ≠ c).
Proof.
  intros Hnum.
  exists (fresh (dom (heap σ))),
    (init JumpHost_class s fabric_Connection _remote_docker_connection).
  assert (Hfresh : heap σ !! fresh (dom (heap σ)) = None).
  { apply not_elem_of_dom. apply is_fresh. }
  split; [simpl; by rewrite Hnum|].
  repeat (split; [reflexivity|]).
  split; [exact Hfresh|].
  intros c _ [jh Hc] <-. congruence.
Qed.

End override_claims.

Lemma choose_from_index_witness :
  let H := Tests.test_externals in
  (∃ h, [6; 1; 2]%positive !! Z.to_nat (3 - 1) = Some h
        ∧ Host.choose_from [6; 1; 2]%positive (Host.Int 3) Tests.test_state
          = (Ok h, Tests.test_state))
  ∧ (∃ msg, Host.choose_from [6; 1; 2]%positive (Host.Int 4)
              Tests.test_state
            = (Raise (Exn IndexError msg None), Tests.test_state))
  ∧ ∃ n, int_of_str "3" = Ok n
         ∧ Host.choose_from [6; 1; 2]%positive (Host.Str "3") Tests.test_state
           = Host.choose_from [6; 1; 2]%positive (Host.Int n)
               Tests.test_state.
Proof.
  intros H.
  pose proof (@choose_from_index H [6; 1; 2]%positive Tests.test_state)
    as (Hin & Hout & Hstr).
  split; [|split].
  - apply (Hin 3). simpl. lia.
  - apply (Hout 4). simpl. lia.
  - apply (Hstr "3"); [discriminate | reflexivity |].
    unfold int_max_str_digits. simpl. lia.
Defined.

(** C4, as the spec has it, fails: 0 is outside [1..2], and with the
    override 0 on two candidates [choose_from] returns the last candidate
    instead of raising. *)
Lemma choose_from_index_zero_not_rejected :
  let H := Tests.test_externals in
  ¬ (1 ≤ 0 ≤ Z.of_nat (length [1; 2]%positive))
  ∧ Host.choose_from [1; 2]%positive (Host.Int 0) Tests.test_state
    = (Ok 2%positive, Tests.test_state)
  ∧ Host.choose_from [1; 2]%positive (Host.Str "0") Tests.test_state
    = (Ok 2%positive, Tests.test_state).
Proof. simpl. split; [lia|]. split; reflexivity. Qed.

Lemma choose_from_hostname_witness :
  let H := Tests.test_externals in
  ∃ l jh,
    Host.choose_from [1; 2]%positive (Host.Str "my-host") Tests.test_state
    = (Ok l, {| Host.heap := <[l := jh]> Tests.test_heap;
                Host.world := 0%nat; Host.logs := [] |})
    ∧ Host.host jh = "my-host"
    ∧ Host.class_of jh = Host.JumpHost_class
    ∧ Host.connection_func jh = fabric_Connection
    ∧ Host.docker_client_func jh = Host._remote_docker_connection
    ∧ Host.cached_connection jh = None
    ∧ Host.cached_docker_client jh = None
    ∧ Tests.test_heap !! l = None
    ∧ l ≠ 1%positive ∧ l ≠ 2%positive.
Proof.
  intros H.
  destruct (@choose_from_hostname H [1; 2]%positive "my-host"
              Tests.test_state eq_refl)
    as (l & jh & Hcall & Hhost & Hclass & Hcf & Hdf & Hcc & Hcd & Hfresh
        & Hdistinct).
  exists l, jh. repeat (split; [assumption|]). split.
  - apply Hdistinct; [by left | by exists Tests.GOOD_HOST].
  - apply Hdistinct; [by right; left | by exists Tests.GOOD_HOST].
Defined.

(** ** The fan-out *)

Section parallel_facts.
Context {K R : Type} `{Countable K}.
Variable operator_func : K → outcome R.
Import Parallel.





(** In collect mode no task raises. *)
Lemma first_exception_collect operands completion :
  first_exception (map (coroutine operator_func true) operands) completion
  = None.
Proof.
  induction completion as [|i later IH]; simpl; [done|].
  rewrite list_lookup_fmap.
  destruct (operands !! i) as [op|]; simpl; [|done].
  unfold coroutine, run_in_executor.
  destruct (operator_func op) as [r|e]; [done|].
  by destruct (arrives e).
Qed.




(** An exception [gather] finds was raised by one of the tasks. *)
(** An exception [gather] finds was raised by one of the tasks. *)
Lemma first_exception_raised {A} (tasks : list (awaited A)) completion e :
  first_exception tasks completion = Some e →
  ∃ i, tasks !! i = Some (Done (Raise e)).
Proof.
  induction completion as [|i later IH]; simpl; [done|].
  destruct (tasks !! i) as [[[a|e']|]|] eqn:Hi; [by auto| |by auto|by auto].
  intros [= ->]. by exists i.
Qed.




End parallel_facts.

Section parallel_claims.
Context {K R : Type} `{Countable K}.
Variable operator_func : K → outcome R.
Import Parallel.



(** C10.  On an empty list of operands [run_in_parallel] raises the
    [ValueError] of the thread pool, which is asked for as many workers as
    there are operands and refuses a number of workers that is not
    positive.  It does so in both modes and returns no dictionary. *)
Theorem run_in_parallel_empty
    (return_exceptions : bool) (completion : list nat) :
  run_in_parallel operator_func [] return_exceptions completion
  = Raise (Exn ValueError ["max_workers must be greater than 0"] None).
Proof. reflexivity. Qed.

End parallel_claims.


(** C7, as the spec has it, fails on the empty collection: no dictionary is
    returned. *)
Lemma run_in_parallel_collect_empty_raises :
  Parallel.run_in_parallel square [] true []
  = Raise (Exn ValueError ["max_workers must be greater than 0"] None).
Proof. reflexivity. Qed.




(** In the third doctest the exception is the [ZeroDivisionError], in every
    order of completion: 0 is the only operand on which the operator
    raises. *)
Lemma run_in_parallel_doctest_raises (completion : list nat) :
  Parallel.run_in_parallel two_over [1; 0; 2] false completion
  = Raise (Exn ZeroDivisionError ["division by zero"] None).
Proof.
  unfold Parallel.run_in_parallel, Parallel.gather_results, Parallel.gather.
  simpl.
  destruct (Parallel.first_exception _ completion) as [e|] eqn:Hfirst;
    [|reflexivity].
  apply first_exception_raised in Hfirst as [i Hi].
  destruct i as [|[|[|i]]]; vm_compute in Hi; try discriminate.
  by injection Hi as <-.
Qed.

(** The second doctest: [run_in_parallel([1, 0, 2], lambda x: 2/x)]. *)
Lemma run_in_parallel_doctest_collects (completion : list nat) :
  ∃ m, Parallel.run_in_parallel two_over [1; 0; 2] true completion = Ok m
       ∧ m !! 1 = Some (Parallel.Returned (2 / 1)%Q)
       ∧ m !! 0 = Some (Parallel.Captured
                          (Exn ZeroDivisionError ["division by zero"] None))
       ∧ m !! 2 = Some (Parallel.Returned (2 / 2)%Q).
Proof.
  eexists. split; [|repeat split].
  - unfold Parallel.run_in_parallel, Parallel.gather_results, Parallel.gather.
    by rewrite (first_exception_collect two_over [1; 0; 2] completion).
  - reflexivity.
  - reflexivity.
  - reflexivity.
Qed.

(** * Further properties *)

(** ** The failover loop, in general *)

Section failover_more_facts.
Context {S R : Type}.
Variable logging : log_entry → S → S.
Variable func : ref → S → outcome R * S.

Local Abbreviation for_host_in := (Failover.for_host_in logging func).
Local Abbreviation failed_run := (Failover.failed_run logging func).

Lemma for_host_in_nil_raises last σ :
  ∃ e, for_host_in [] last σ = (Raise e, logging Error_unable_to_connect σ).
Proof.
  destruct last as [e|]; simpl; [destruct (truthy_exn e)|]; eauto.
Qed.

Lemma for_host_in_all_fail hosts σ last σ' last' :
  failed_run hosts σ last σ' last' →
  ∃ e, for_host_in hosts last σ
       = (Raise e, logging Error_unable_to_connect σ').
Proof.
  intros Hrun.
  pose proof (for_host_in_failed logging func hosts [] _ _ _ _ Hrun) as Heq.
  rewrite app_nil_r in Heq. rewrite Heq. apply for_host_in_nil_raises.
Qed.

(** A pair the loop returns comes from the first candidate on which the work
    returns. *)
Lemma for_host_in_ok_inv hosts last σ h r σ' :
  for_host_in hosts last σ = (Ok (h, r), σ') →
  ∃ pre post σ1 last1,
    hosts = pre ++ h :: post ∧ failed_run pre σ last σ1 last1
    ∧ func h σ1 = (Ok r, σ').
Proof.
  intros Hok.
  destruct (first_success_or_all_fail logging func hosts σ last)
    as [(pre & host & post & σ1 & last1 & result & σ2 & -> & Hrun & Hf)
       |(σ2 & last2 & Hrun)].
  - rewrite (for_host_in_failed _ _ _ _ _ _ _ _ Hrun) in Hok.
    simpl in Hok. rewrite Hf in Hok. simpl in Hok.
    injection Hok as -> -> ->. by exists pre, post, σ1, last1.
  - destruct (for_host_in_all_fail _ _ _ _ _ Hrun) as [e He].
    rewrite He in Hok. discriminate.
Qed.

(** A property of pairs of states that the work and the log keep is kept by
    a run of failures, and holds between the start of the run and the state
    in which each candidate was tried. *)
Lemma failed_run_each (P : S → S → Prop) `{!PreOrder P}
    hosts σ last σ' last' :
  (∀ l σ0, P σ0 (logging l σ0)) →
  (∀ h σ0, P σ0 (func h σ0).2) →
  failed_run hosts σ last σ' last' →
  P σ σ'
  ∧ ∀ h, h ∈ hosts → ∃ σi e σj, P σ σi ∧ func h σi = (Raise e, σj).
Proof.
  intros Hlog Hfunc Hrun.
  induction Hrun as [|host rest σ last e σ1 σ' last' Hf _ [IH1 IH2]].
  - split; [reflexivity|]. intros h Hh. by apply not_elem_of_nil in Hh.
  - assert (Hstep : P σ (logging (Failover.failover_warning host e) σ1)).
    { transitivity σ1; [|apply Hlog].
      pose proof (Hfunc host σ) as Hp. by rewrite Hf in Hp. }
    split; [by transitivity (logging (Failover.failover_warning host e) σ1)|].
    intros h [->|Hh]%elem_of_cons.
    + exists σ, e, σ1. split; [reflexivity | done].
    + destruct (IH2 h Hh) as (σi & e' & σj & HP & Hraise).
      exists σi, e', σj. split; [by transitivity
        (logging (Failover.failover_warning host e) σ1) | done].
Qed.

End failover_more_facts.

Section failover_more.
Context {S R : Type}.
Variable logging : log_entry → S → S.
Variable func : ref → S → outcome R * S.

(** X1.  [try_function_on_any] raises exactly when the work, tried on the
    candidates in turn, raises on every one of them (which is so for the
    empty list); otherwise it returns a pair. *)
Theorem try_function_on_any_raises_iff_all_fail
    (jump_hosts : list ref) (σ : S) :
  (∃ e σ', Failover.try_function_on_any logging func jump_hosts σ
           = (Raise e, σ'))
  ↔ (∃ σ' last',
       Failover.failed_run logging func jump_hosts σ None σ' last').
Proof.
  unfold Failover.try_function_on_any. split.
  - intros (e & σ' & Hraise).
    destruct (first_success_or_all_fail logging func jump_hosts σ None)
      as [(pre & host & post & σ1 & last1 & result & σ2 & -> & Hrun & Hf)
         |Hall]; [|exact Hall].
    rewrite (for_host_in_failed _ _ _ _ _ _ _ _ Hrun) in Hraise.
    simpl in Hraise. rewrite Hf in Hraise. discriminate.
  - intros (σ' & last' & Hrun).
    destruct (for_host_in_all_fail _ _ _ _ _ _ _ Hrun) as [e He]. eauto.
Qed.

(** X2.  A pair [(host, result)] that [try_function_on_any] returns is made
    of a candidate of the list and of what the work returned on it, after
    the work raised on every candidate before it; the state returned is the
    one that call of the work left. *)
Theorem try_function_on_any_returns_candidate
    (jump_hosts : list ref) (σ σ' : S) (host : ref) (result : R) :
  Failover.try_function_on_any logging func jump_hosts σ
  = (Ok (host, result), σ') →
  ∃ pre post σ1 last1,
    jump_hosts = pre ++ host :: post
    ∧ Failover.failed_run logging func pre σ None σ1 last1
    ∧ func host σ1 = (Ok result, σ').
Proof. apply for_host_in_ok_inv. Qed.

(** X3.  Whatever the work does, the candidates it is called on are the
    first ones of the list, each once and in the order of the list; it is
    called on none only when the list is empty. *)
Theorem try_function_on_any_calls_in_order
    (jump_hosts : list ref) (σ : S) :
  let calls :=
    (Failover.try_function_on_any (Trace.traced_logging logging)
       (Trace.traced_func func) jump_hosts (σ, [])).2.2 in
  (∃ rest, jump_hosts = calls ++ rest) ∧ (calls = [] → jump_hosts = []).
Proof.
  cbv zeta. unfold Failover.try_function_on_any.
  destruct (for_host_in_calls_prefix logging func jump_hosts None σ [])
    as (called & rest & Hsplit & Hcalls).
  split; [exists rest; by rewrite Hcalls|].
  destruct jump_hosts as [|host tl]; [done|]. simpl.
  unfold Trace.traced_func at 1; simpl.
  destruct (func host σ) as [[result|e] σ1]; simpl; [done|].
  assert (Hne : ∀ last st,
            (Failover.for_host_in (Trace.traced_logging logging)
               (Trace.traced_func func) tl last (st, [host])).2.2 ≠ []).
  { intros last st.
    destruct (for_host_in_calls_prefix logging func tl last st [host])
      as (called' & rest' & _ & ->). done. }
  destruct (isinstance e ConnectionError); intros Hnil;
    by apply Hne in Hnil.
Qed.

(** The loop after the failures [fs], with the log kept apart. *)
Lemma for_host_in_failed_with fs post last σ σ' lg :
  failed_with func fs σ σ' →
  Failover.for_host_in recorded_logging (unlogged func)
    (map fst fs ++ post) last (σ, lg)
  = Failover.for_host_in recorded_logging (unlogged func) post
      (match mbind (λ f, Some f.2) (list.last fs) with
       | Some e => Some e
       | None => last
       end)
      (σ', lg ++ map (λ f, Failover.failover_warning f.1 f.2) fs).
Proof.
  intros Hrun. revert last lg.
  induction Hrun as [σ|host e rest σ σ1 σ' Hf _ IH]; intros last lg.
  - simpl. by rewrite app_nil_r.
  - simpl map. rewrite <- app_comm_cons.
    rewrite (for_host_in_raise recorded_logging (unlogged func) host _ last
               (σ, lg) e (σ1, lg));
      [|unfold unlogged; simpl; by rewrite Hf].
    change (recorded_logging (Failover.failover_warning host e) (σ1, lg))
      with (σ1, lg ++ [Failover.failover_warning host e]).
    rewrite IH, <- app_assoc. simpl.
    destruct rest as [|f rest]; [done|].
    rewrite last_cons_cons.
    by destruct (proj2 (last_is_Some (f :: rest))) as [x ->].
Qed.

(** X4.  With the log kept apart from the state of the work: when the work
    raises on every candidate, the loop has written one warning for each, in
    the order of the list and naming the candidate and the exception, then
    one error, and it raises the exception of the last candidate
    ([Exception("No hosts provided")] when there was none, or when that
    exception is false).  When the work then returns on a further
    candidate, the loop has written the warnings and nothing else. *)
Theorem try_function_on_any_log
    (fs : list (ref * exn)) (σ σ1 : S) (lg : list log_entry) :
  failed_with func fs σ σ1 →
  let warnings := map (λ f, Failover.failover_warning f.1 f.2) fs in
  Failover.try_function_on_any recorded_logging (unlogged func)
    (map fst fs) (σ, lg)
  = (Raise (raised_after fs),
     (σ1, (lg ++ warnings) ++ [Error_unable_to_connect]))
  ∧ ∀ host result σ2 post,
      func host σ1 = (Ok result, σ2) →
      Failover.try_function_on_any recorded_logging (unlogged func)
        (map fst fs ++ host :: post) (σ, lg)
      = (Ok (host, result), (σ2, lg ++ warnings)).
Proof.
  intros Hrun warnings. unfold Failover.try_function_on_any. split.
  - pose proof (for_host_in_failed_with fs [] None σ σ1 lg Hrun) as Heq.
    rewrite app_nil_r in Heq. rewrite Heq. simpl. unfold raised_after.
    destruct (list.last fs) as [[h e]|]; simpl; [|reflexivity].
    by destruct (truthy_exn e).
  - intros host result σ2 post Hok.
    rewrite (for_host_in_failed_with fs _ None σ σ1 lg Hrun). simpl.
    unfold unlogged at 1; simpl. by rewrite Hok.
Qed.

End failover_more.

Lemma try_function_on_any_returns_candidate_witness :
  ∃ pre post σ1 last1,
    [1; 2; 3; 4]%positive = pre ++ 3%positive :: post
    ∧ Failover.failed_run silent sample_work pre 0%nat None σ1 last1
    ∧ sample_work 3%positive σ1 = (Ok "up", 3%nat).
Proof.
  apply (try_function_on_any_returns_candidate silent sample_work
           [1; 2; 3; 4]%positive 0%nat 3%nat 3%positive "up").
  reflexivity.
Defined.

Lemma try_function_on_any_log_witness :
  let e1 := Exn ZeroDivisionError ["division by zero"] None in
  let e2 := Exn socket_timeout [] None in
  Failover.try_function_on_any recorded_logging (unlogged sample_work)
    [1; 2]%positive (0%nat, [])
  = (Raise e2,
     (2%nat, [Warning_Exception 1%positive e1;
              Warning_Exception 2%positive e2; Error_unable_to_connect]))
  ∧ Failover.try_function_on_any recorded_logging (unlogged sample_work)
      [1; 2; 3; 4]%positive (0%nat, [])
    = (Ok (3%positive, "up"),
       (3%nat, [Warning_Exception 1%positive e1;
                Warning_Exception 2%positive e2])).
Proof.
  intros e1 e2.
  destruct (try_function_on_any_log sample_work
              [(1%positive, e1); (2%positive, e2)] 0%nat 2%nat [])
    as [Hfail Hok].
  - repeat econstructor.
  - split; [exact Hfail|].
    exact (Hok 3%positive "up" 3%nat [4%positive] eq_refl).
Defined.

(** ** What the methods do to the store *)

Section store_facts.
Context `{Externals}.
Import Host.

#[global] Instance cache_extends_preorder : PreOrder cache_extends.
Proof.
  split.
  - intros jh. by repeat split.
  - intros a b c (?&?&?&?&Hc1&Hd1) (?&?&?&?&Hc2&Hd2).
    repeat split; try congruence; eauto.
Qed.

#[global] Instance store_extends_preorder : PreOrder store_extends.
Proof.
  split.
  - intros σ l jh Hl. exists jh. split; [done | reflexivity].
  - intros a b c Hab Hbc l jh Hl.
    destruct (Hab l jh Hl) as (jh1 & Hl1 & He1).
    destruct (Hbc l jh1 Hl1) as (jh2 & Hl2 & He2).
    exists jh2. split; [done | by transitivity jh1].
Qed.

Lemma store_extends_same_heap σ σ' :
  heap σ' = heap σ → store_extends σ σ'.
Proof.
  intros Heq l jh Hl. exists jh. rewrite Heq. split; [done | reflexivity].
Qed.

Lemma store_extends_logging l σ : store_extends σ (logging l σ).
Proof. by apply store_extends_same_heap. Qed.

(** What [connect] does to the store: nothing, or it fills the empty
    connection cache of a [JumpHost] with the connection it returns. *)
Lemma connect_effect self σ :
  heap (connect self σ).2 = heap σ
  ∨ ∃ jh c, heap σ !! self = Some jh ∧ class_of jh = JumpHost_class
            ∧ cached_connection jh = None
            ∧ (connect self σ).1 = Ok c
            ∧ heap (connect self σ).2
              = <[self := set_cached_connection c jh]> (heap σ).
Proof.
  destruct (heap σ !! self) as [jh|] eqn:Hself;
    [|left; unfold_methods; by rewrite Hself].
  destruct (class_of jh) eqn:Hclass.
  - destruct (cached_connection jh) as [c|] eqn:Hcached.
    + left. by rewrite (connect_cached _ _ _ _ Hself Hclass Hcached).
    + pose proof (connect_uncached _ _ _ Hself Hclass Hcached) as Hun.
      destruct (open_connection jh (world σ)) as [[c|e] w].
      * right. exists jh, c. rewrite Hun. simpl.
        repeat split; try done.
        apply map_eq. intros l. destruct (decide (l = self)) as [->|Hne].
        -- by rewrite lookup_alter_eq, lookup_insert_eq, Hself.
        -- by rewrite lookup_alter_ne, lookup_insert_ne.
      * left. destruct Hun as [l ->]. done.
  - left. unfold_methods. rewrite Hself, Hclass.
    by destruct (invoke_Context (world σ)).
Qed.

Lemma docker_client_effect self σ :
  heap (docker_client self σ).2 = heap σ
  ∨ ∃ jh c, heap σ !! self = Some jh ∧ class_of jh = JumpHost_class
            ∧ cached_docker_client jh = None
            ∧ (docker_client self σ).1 = Ok c
            ∧ heap (docker_client self σ).2
              = <[self := set_cached_docker_client c jh]> (heap σ).
Proof.
  destruct (heap σ !! self) as [jh|] eqn:Hself;
    [|left; unfold_methods; by rewrite Hself].
  destruct (class_of jh) eqn:Hclass.
  - destruct (cached_docker_client jh) as [c|] eqn:Hcached.
    + left. by rewrite (docker_client_cached _ _ _ _ Hself Hclass Hcached).
    + pose proof (docker_client_uncached _ _ _ Hself Hclass Hcached) as Hun.
      destruct (docker_client_func jh (host jh) (world σ)) as [[c|e] w].
      * right. exists jh, c. rewrite Hun. simpl.
        repeat split; try done.
        apply map_eq. intros l. destruct (decide (l = self)) as [->|Hne].
        -- by rewrite lookup_alter_eq, lookup_insert_eq, Hself.
        -- by rewrite lookup_alter_ne, lookup_insert_ne.
      * left. destruct Hun as [l ->]. done.
  - left. unfold_methods. rewrite Hself, Hclass.
    by destruct (docker_from_env None (world σ)).
Qed.

Lemma store_extends_insert σ σ' self jh jh' :
  heap σ !! self = Some jh →
  cache_extends jh jh' →
  heap σ' = <[self := jh']> (heap σ) →
  store_extends σ σ'.
Proof.
  intros Hself Hext Heq l jh0 Hl. rewrite Heq.
  destruct (decide (l = self)) as [->|Hne].
  - rewrite lookup_insert_eq. exists jh'. split; [done|]. congruence.
  - rewrite lookup_insert_ne by done. exists jh0. split; [done|reflexivity].
Qed.

Lemma connect_extends self σ : store_extends σ (connect self σ).2.
Proof.
  destruct (connect_effect self σ)
    as [Hsame|(jh & c & Hself & _ & Hcached & _ & Hins)].
  - by apply store_extends_same_heap.
  - eapply store_extends_insert; [exact Hself| |exact Hins].
    repeat split; simpl; [congruence | done].
Qed.

Lemma docker_client_extends self σ :
  store_extends σ (docker_client self σ).2.
Proof.
  destruct (docker_client_effect self σ)
    as [Hsame|(jh & c & Hself & _ & Hcached & _ & Hins)].
  - by apply store_extends_same_heap.
  - eapply store_extends_insert; [exact Hself| |exact Hins].
    repeat split; simpl; [done | congruence].
Qed.

(** A property of pairs of states that the work and the log keep is kept by
    the whole loop. *)
Lemma for_host_in_keeps {S R} (logging : log_entry → S → S)
    (func : ref → S → outcome R * S) (P : S → S → Prop) `{!PreOrder P}
    hosts last σ :
  (∀ l σ0, P σ0 (logging l σ0)) →
  (∀ h σ0, P σ0 (func h σ0).2) →
  P σ (Failover.for_host_in logging func hosts last σ).2.
Proof.
  intros Hlog Hfunc. revert last σ.
  induction hosts as [|host rest IH]; intros last σ; simpl.
  - destruct last as [e|]; [destruct (truthy_exn e)|]; simpl; apply Hlog.
  - pose proof (Hfunc host σ) as Hstep.
    destruct (func host σ) as [[result|e] σ1]; simpl in *; [done|].
    destruct (isinstance e ConnectionError);
      (etransitivity; [exact Hstep|]);
      (etransitivity; [apply Hlog|]); apply IH.
Qed.

Lemma try_connect_to_any_extends hosts σ :
  store_extends σ (try_connect_to_any hosts σ).2.
Proof.
  unfold try_connect_to_any, try_function_on_any,
    Failover.try_function_on_any.
  apply (for_host_in_keeps _ _ store_extends).
  - apply store_extends_logging.
  - apply connect_extends.
Qed.

Lemma shuffle_heap {A} (x : list A) σ :
  heap (shuffle x σ).2 = heap σ ∧ logs (shuffle x σ).2 = logs σ.
Proof.
  unfold shuffle, extern.
  by destruct (shuffle_from (length x - 1) x (world σ)).
Qed.

Lemma choose_from_extends hosts override σ :
  store_extends σ (choose_from hosts override σ).2.
Proof.
  destruct override as [|n|s]; simpl.
  - unfold bind.
    pose proof (shuffle_heap hosts σ) as [Hheap _].
    destruct (shuffle hosts σ) as [[l|e] σ1] eqn:Hsh; simpl in *.
    + transitivity σ1; [by apply store_extends_same_heap|].
      pose proof (try_connect_to_any_extends l σ1) as Htry.
      unfold try_connect_to_any in Htry.
      by destruct (try_function_on_any (λ jh, connect jh) l σ1)
        as [[[h c]|e] σ2].
    + by apply store_extends_same_heap.
  - reflexivity.
  - destruct (isnumeric s).
    + destruct (int_of_str s); reflexivity.
    + unfold JumpHost_, new. simpl. intros l jh Hl.
      exists jh. split; [|reflexivity]. simpl.
      rewrite lookup_insert_ne; [done|].
      intros <-. pose proof (is_fresh (dom (heap σ))) as Hfresh.
      apply Hfresh. apply elem_of_dom. eauto.
Qed.

End store_facts.

(** ** [random.shuffle] *)

Section shuffle_facts.
Context `{Externals}.
Import Host.

Lemma swap_Permutation {A} (x : list A) (i j : nat) : swap x i j ≡ₚ x.
Proof.
  unfold swap.
  destruct (x !! i) as [xi|] eqn:Hi; [|done].
  destruct (x !! j) as [xj|] eqn:Hj; [|done].
  pose proof (lookup_lt_Some _ _ _ Hi) as Hli.
  pose proof (lookup_lt_Some _ _ _ Hj) as Hlj.
  apply Permutation_inj. split; [by rewrite !length_insert|].
  exists (λ k, if decide (k = j) then i else if decide (k = i) then j else k).
  split.
  - intros k1 k2. repeat case_decide; congruence.
  - intros k. destruct (decide (k = j)) as [->|Hkj].
    + rewrite list_lookup_insert_eq; [done|]. by rewrite length_insert.
    + rewrite list_lookup_insert_ne by done.
      destruct (decide (k = i)) as [->|Hki].
      * by rewrite list_lookup_insert_eq.
      * by rewrite list_lookup_insert_ne.
Qed.

Lemma shuffle_from_Permutation {A} (i : nat) (x : list A) (w : World) :
  (shuffle_from i x w).1 ≡ₚ x.
Proof.
  revert x w. induction i as [|i IH]; intros x w; simpl; [done|].
  destruct (randbelow _ w) as [j w1].
  rewrite IH. apply swap_Permutation.
Qed.

(** [shuffle] returns a permutation of its argument and acts on the world
    of the libraries only. *)
Lemma shuffle_spec {A} (x : list A) (σ : state) :
  ∃ x' σ1, shuffle x σ = (Ok x', σ1) ∧ x' ≡ₚ x
           ∧ heap σ1 = heap σ ∧ logs σ1 = logs σ.
Proof.
  unfold shuffle, extern.
  pose proof (shuffle_from_Permutation (length x - 1) x (world σ)) as Hp.
  destruct (shuffle_from (length x - 1) x (world σ)) as [x' w1].
  by eexists _, _.
Qed.

End shuffle_facts.

(** ** The store, the caches and the failover together *)

Section store_more_facts.
Context `{Externals}.
Import Host.

Lemma connect_raise_heap self σ e σ' :
  connect self σ = (Raise e, σ') → heap σ' = heap σ.
Proof.
  intros Hcall.
  destruct (connect_effect self σ) as [Hsame|(jh & c & _ & _ & _ & Hok & _)];
    rewrite Hcall in *; simpl in *; [done | discriminate].
Qed.

Lemma connect_sure self σ jh :
  heap σ !! self = Some jh → surely_connects jh →
  ∃ c σ', connect self σ = (Ok c, σ').
Proof.
  intros Hself Hsure. destruct (class_of jh) eqn:Hclass.
  - destruct Hsure as [?|[c Hc]]; [congruence|].
    exists c, σ. by apply (connect_cached _ _ jh).
  - unfold_methods. rewrite Hself, Hclass.
    destruct (invoke_Context (world σ)) as [c w]. by eexists _, _.
Qed.

Lemma surely_connects_extends jh jh' :
  cache_extends jh jh' → surely_connects jh → surely_connects jh'.
Proof.
  intros (Hclass & _ & _ & _ & Hc & _) [Hlocal|[c Hcached]].
  - left. congruence.
  - right. exists c. by apply Hc.
Qed.

(** The loop of [try_connect_to_any] when [connect] returns on [good] and
    raises on every other candidate, in every state with the store [hp]. *)
Lemma for_host_in_connect_unique (good : ref) (hp : gmap ref JumpHost)
    (hosts : list ref) last σ :
  (∀ σ1, heap σ1 = hp → ∃ c σ2, connect good σ1 = (Ok c, σ2)) →
  (∀ h σ1, h ∈ hosts → h ≠ good → heap σ1 = hp →
     ∃ e σ2, connect h σ1 = (Raise e, σ2)) →
  good ∈ hosts → heap σ = hp →
  ∃ c σ', Failover.for_host_in logging (λ jh, connect jh) hosts last σ
          = (Ok (good, c), σ').
Proof.
  intros Hgood Hbad. revert last σ.
  induction hosts as [|host rest IH]; intros last σ Hin Hheap.
  - by apply not_elem_of_nil in Hin.
  - destruct (decide (host = good)) as [->|Hne].
    + destruct (Hgood σ Hheap) as (c & σ2 & Hc).
      exists c, σ2. simpl. by rewrite Hc.
    + destruct (Hbad host σ) as (e & σ2 & He); [by left|done|done|].
      rewrite (for_host_in_raise logging (λ jh, connect jh) _ _ _ _ _ _ He).
      apply IH.
      * intros h σ1 Hh. apply Hbad. by right.
      * apply elem_of_cons in Hin as [?|?]; [congruence | done].
      * simpl. by rewrite (connect_raise_heap _ _ _ _ He).
Qed.

End store_more_facts.

Section store_claims.
Context `{Externals}.
Import Host.

(** X5.  [connect], [docker_client], [try_connect_to_any] and [choose_from]
    never remove an object from the store and never change the class, the
    host name or the factories of one; a cache that holds a handle holds the
    same handle afterwards.  All they do to an object is fill an empty
    cache. *)
Theorem store_only_grows
    (self : ref) (hosts : list ref) (override : override_value)
    (σ : state) :
  store_extends σ (connect self σ).2
  ∧ store_extends σ (docker_client self σ).2
  ∧ store_extends σ (try_connect_to_any hosts σ).2
  ∧ store_extends σ (choose_from hosts override σ).2.
Proof.
  split; [apply connect_extends|].
  split; [apply docker_client_extends|].
  split; [apply try_connect_to_any_extends | apply choose_from_extends].
Qed.

(** X6.  [connect] creates no object, leaves every object other than the
    one it is called on as it was, and leaves the docker client cache of
    that one as it was.  Likewise [docker_client] leaves the connection
    cache as it was: the two caches are independent. *)
Theorem accessors_write_their_own_cache_only (self : ref) (σ : state) :
  (∀ l, heap σ !! l = None → heap (connect self σ).2 !! l = None)
  ∧ (∀ l jh, heap σ !! l = Some jh →
       ∃ jh', heap (connect self σ).2 !! l = Some jh'
              ∧ cached_docker_client jh' = cached_docker_client jh
              ∧ (l ≠ self → jh' = jh))
  ∧ (∀ l, heap σ !! l = None → heap (docker_client self σ).2 !! l = None)
  ∧ (∀ l jh, heap σ !! l = Some jh →
       ∃ jh', heap (docker_client self σ).2 !! l = Some jh'
              ∧ cached_connection jh' = cached_connection jh
              ∧ (l ≠ self → jh' = jh)).
Proof.
  split; [|split; [|split]].
  - intros l Hl.
    destruct (connect_effect self σ)
      as [->|(jh & c & Hself & _ & _ & _ & ->)]; [done|].
    rewrite lookup_insert_ne; [done | congruence].
  - intros l jh Hl.
    destruct (connect_effect self σ)
      as [->|(jh0 & c & Hself & _ & _ & _ & ->)]; [by exists jh|].
    destruct (decide (l = self)) as [->|Hne].
    + rewrite lookup_insert_eq. eexists. split; [done|].
      assert (jh0 = jh) as -> by congruence. done.
    + rewrite lookup_insert_ne by done. by exists jh.
  - intros l Hl.
    destruct (docker_client_effect self σ)
      as [->|(jh & c & Hself & _ & _ & _ & ->)]; [done|].
    rewrite lookup_insert_ne; [done | congruence].
  - intros l jh Hl.
    destruct (docker_client_effect self σ)
      as [->|(jh0 & c & Hself & _ & _ & _ & ->)]; [by exists jh|].
    destruct (decide (l = self)) as [->|Hne].
    + rewrite lookup_insert_eq. eexists. split; [done|].
      assert (jh0 = jh) as -> by congruence. done.
    + rewrite lookup_insert_ne by done. by exists jh.
Qed.

(** X7.  A failure of [connect] is not remembered.  After [connect] has
    raised on an object of class [JumpHost], the next call runs the factory
    and [open()] again; when these now return a connection, [connect]
    returns it and caches it. *)
Theorem connect_retries_after_failure
    (self : ref) (σ σ1 : state) (jh : JumpHost) (e : exn)
    (c : Conn) (w : World) :
  heap σ !! self = Some jh →
  class_of jh = JumpHost_class →
  connect self σ = (Raise e, σ1) →
  open_connection jh (world σ1) = (Ok c, w) →
  ∃ σ2, connect self σ1 = (Ok c, σ2) ∧ world σ2 = w
        ∧ cached_connection <$> heap σ2 !! self = Some (Some c).
Proof.
  intros Hself Hclass Hfail Hopen.
  assert (Hcached : cached_connection jh = None).
  { destruct (cached_connection jh) as [c0|] eqn:Hc; [|done].
    rewrite (connect_cached _ _ _ _ Hself Hclass Hc) in Hfail.
    discriminate. }
  assert (Hself1 : heap σ1 !! self = Some jh)
    by (by rewrite (connect_raise_heap _ _ _ _ Hfail)).
  pose proof (connect_uncached _ _ _ Hself1 Hclass Hcached) as Hun.
  rewrite Hopen in Hun. eexists. split; [exact Hun|]. simpl.
  split; [done|]. by rewrite lookup_alter_eq, Hself1.
Qed.

(** X8.  When [try_connect_to_any] returns a host of class [JumpHost]
    together with a connection, that connection is in the cache of the
    host: a call of [connect] on the host in the state returned gives the
    same connection and changes nothing. *)
Theorem try_connect_to_any_caches_winner
    (jump_hosts : list ref) (σ σ' : state) (h : ref) (c : Conn)
    (jh : JumpHost) :
  try_connect_to_any jump_hosts σ = (Ok (h, c), σ') →
  heap σ !! h = Some jh →
  class_of jh = JumpHost_class →
  cached_connection <$> heap σ' !! h = Some (Some c)
  ∧ connect h σ' = (Ok c, σ').
Proof.
  intros Htry Hh Hclass.
  apply for_host_in_ok_inv in Htry
    as (pre & post & σ1 & last1 & _ & Hrun & Hok).
  destruct (failed_run_each logging (λ jh, connect jh) store_extends
              _ _ _ _ _ store_extends_logging connect_extends Hrun)
    as [Hext _].
  destruct (Hext h jh Hh) as (jh1 & Hh1 & Hclass1 & _).
  rewrite Hclass in Hclass1.
  destruct (connect_caches _ _ _ _ _ Hh1 Hclass1 Hok)
    as (jh2 & Hh2 & Hclass2 & Hcached2).
  split; [by rewrite Hh2; simpl; rewrite Hcached2|].
  by apply (connect_cached _ _ jh2).
Qed.

(** X9.  When one of the candidates is a [LocalHost], or a [JumpHost] that
    already has a connection in its cache, [try_connect_to_any] does not
    raise, whatever the other candidates do: it returns a host and a
    connection. *)
Theorem try_connect_to_any_finds_sure_host
    (jump_hosts : list ref) (σ : state) (h : ref) (jh : JumpHost) :
  h ∈ jump_hosts →
  heap σ !! h = Some jh →
  surely_connects jh →
  ∃ h' c σ', try_connect_to_any jump_hosts σ = (Ok (h', c), σ').
Proof.
  intros Hin Hh Hsure.
  unfold try_connect_to_any, try_function_on_any,
    Failover.try_function_on_any.
  destruct (first_success_or_all_fail logging (λ jh, connect jh)
              jump_hosts σ None)
    as [(pre & host & post & σ1 & last1 & c & σ2 & -> & Hrun & Hok)
       |(σ' & last' & Hrun)].
  - exists host, c, σ2.
    rewrite (for_host_in_failed _ _ _ _ _ _ _ _ Hrun). simpl.
    by rewrite Hok.
  - exfalso.
    destruct (failed_run_each logging (λ jh, connect jh) store_extends
                _ _ _ _ _ store_extends_logging connect_extends Hrun)
      as [_ Heach].
    destruct (Heach h Hin) as (σi & e & σj & Hext & Hraise).
    destruct (Hext h jh Hh) as (jhi & Hhi & Hexti).
    destruct (connect_sure h σi jhi Hhi
                (surely_connects_extends _ _ Hexti Hsure))
      as (c & σk & Hok).
    congruence.
Qed.

(** X10.  Without an override, a host [choose_from] returns is one of the
    candidates, and the last thing done was a call of [connect] on it that
    returned a connection. *)
Theorem choose_from_returns_connected_candidate
    (default_hosts : list ref) (σ σ' : state) (h : ref) :
  choose_from default_hosts None_ σ = (Ok h, σ') →
  h ∈ default_hosts ∧ ∃ σ1 c, connect h σ1 = (Ok c, σ').
Proof.
  simpl. unfold bind.
  destruct (shuffle_spec default_hosts σ) as (l & σ0 & -> & Hperm & _).
  destruct (try_function_on_any (λ jh, connect jh) l σ0)
    as [[[h0 c]|e] σ2] eqn:Htry; simpl; [|discriminate].
  intros [= -> ->].
  apply for_host_in_ok_inv in Htry
    as (pre & post & σ1 & last1 & Hl & _ & Hok).
  split; [|by exists σ1, c].
  rewrite <- Hperm, Hl. apply elem_of_app. right. by left.
Qed.

(** X11.  Without an override, when [connect] returns on one candidate and
    raises on every other one, in every state with the store of the call,
    [choose_from] returns that candidate, whatever the order the shuffle
    puts the candidates in. *)
Theorem choose_from_picks_the_reachable_host
    (default_hosts : list ref) (good : ref) (σ : state) :
  good ∈ default_hosts →
  (∀ σ1, heap σ1 = heap σ → ∃ c σ2, connect good σ1 = (Ok c, σ2)) →
  (∀ h σ1, h ∈ default_hosts → h ≠ good → heap σ1 = heap σ →
     ∃ e σ2, connect h σ1 = (Raise e, σ2)) →
  ∃ σ', choose_from default_hosts None_ σ = (Ok good, σ').
Proof.
  intros Hin Hgood Hbad. simpl. unfold bind.
  destruct (shuffle_spec default_hosts σ)
    as (l & σ0 & -> & Hperm & Hheap & _).
  destruct (for_host_in_connect_unique good (heap σ) l None σ0)
    as (c & σ' & Htry); [done| |by rewrite Hperm|done|].
  - intros h σ1 Hh. apply Hbad. by rewrite <- Hperm.
  - unfold try_function_on_any, Failover.try_function_on_any.
    rewrite Htry. by exists σ'.
Qed.

(** X12.  A string override that [isnumeric] accepts but that is not made
    of decimal digits only -- one with a superscript digit or a fraction
    character -- is taken for an index, and [int] fails on it:
    [choose_from] raises [ValueError], in an unchanged state. *)
Theorem choose_from_numeric_not_decimal
    (default_hosts : list ref) (s : string) (σ : state) :
  isnumeric s = true →
  forallb is_decimal_digit (list_ascii_of_string s) = false →
  ∃ msg, choose_from default_hosts (Str s) σ
         = (Raise (Exn ValueError msg None), σ).
Proof.
  intros Hnum Hdec. simpl. rewrite Hnum. unfold int_of_str.
  rewrite Hdec, andb_false_r. by eexists.
Qed.

(** X13.  An integer override that is 0 or negative, but above the opposite
    of the number of candidates, is not refused: the index counts from the
    end, and [choose_from] returns the candidate at position
    [n - 1 + len], in an unchanged state. *)
Theorem choose_from_index_counts_from_end
    (default_hosts : list ref) (n : Z) (σ : state) :
  - Z.of_nat (length default_hosts) < n ≤ 0 →
  ∃ h, default_hosts !! Z.to_nat (n - 1 + Z.of_nat (length default_hosts))
       = Some h
       ∧ choose_from default_hosts (Int n) σ = (Ok h, σ).
Proof.
  intros Hn. simpl.
  rewrite tuple_getitem_negative by lia.
  destruct (tuple_getitem_in_range default_hosts
              (n - 1 + Z.of_nat (length default_hosts)))
    as (h & Hh & ->); [lia|].
  by exists h.
Qed.

End store_claims.

Lemma accessors_write_their_own_cache_only_witness :
  let H := Tests.test_externals in
  let σ1 := (Host.connect 7%positive Tests.test_state).2 in
  Host.heap σ1 !! 8%positive = None
  ∧ (∃ jh', Host.heap σ1 !! 7%positive = Some jh'
            ∧ Host.cached_docker_client jh' = None
            ∧ (7%positive ≠ 7%positive → jh' = Tests.REMOTE_HOST))
  ∧ (∃ jh', Host.heap σ1 !! 4%positive = Some jh'
            ∧ Host.cached_docker_client jh' = None
            ∧ (4%positive ≠ 7%positive → jh' = Tests.BAD_HOST_TIMEOUT)).
Proof.
  intros H σ1.
  destruct (@accessors_write_their_own_cache_only H 7%positive
              Tests.test_state) as (Hnone & Hsome & _).
  split; [exact (Hnone 8%positive eq_refl)|]. split.
  - exact (Hsome 7%positive Tests.REMOTE_HOST eq_refl).
  - exact (Hsome 4%positive Tests.BAD_HOST_TIMEOUT eq_refl).
Defined.

Lemma connect_retries_after_failure_witness :
  let H := Tests.test_externals in
  let σ1 := (Host.connect 1%positive More_tests.flaky_state).2 in
  (Host.connect 1%positive More_tests.flaky_state).1
  = Raise (Exn ConnectionError [] (Some (Exn socket_timeout [] None)))
  ∧ ∃ σ2, Host.connect 1%positive σ1 = (Ok None, σ2)
          ∧ Host.world σ2 = 3%nat
          ∧ Host.cached_connection <$> Host.heap σ2 !! 1%positive
            = Some (Some None).
Proof.
  intros H σ1. split; [reflexivity|].
  exact (@connect_retries_after_failure H 1%positive More_tests.flaky_state
           σ1 More_tests.FLAKY_HOST
           (Exn ConnectionError [] (Some (Exn socket_timeout [] None)))
           None 3%nat eq_refl eq_refl eq_refl eq_refl).
Defined.

Lemma try_connect_to_any_caches_winner_witness :
  let H := Tests.test_externals in
  let σ' := (Host.try_connect_to_any [4; 7]%positive Tests.test_state).2 in
  Host.cached_connection <$> Host.heap σ' !! 7%positive = Some (Some None)
  ∧ Host.connect 7%positive σ' = (Ok None, σ').
Proof.
  intros H σ'.
  exact (@try_connect_to_any_caches_winner H [4; 7]%positive
           Tests.test_state σ' 7%positive None Tests.REMOTE_HOST
           eq_refl eq_refl eq_refl).
Defined.

Lemma try_connect_to_any_finds_sure_host_witness :
  let H := Tests.test_externals in
  ∃ h' c σ',
    Host.try_connect_to_any [4; 3; 1]%positive Tests.test_state
    = (Ok (h', c), σ').
Proof.
  intros H.
  apply (@try_connect_to_any_finds_sure_host H [4; 3; 1]%positive
           Tests.test_state 1%positive Tests.GOOD_HOST).
  - by right; right; left.
  - reflexivity.
  - by left.
Defined.

Lemma choose_from_returns_connected_candidate_witness :
  let H := Tests.test_externals in
  let σ' := (Host.choose_from [4; 6; 1]%positive Host.None_
               Tests.test_state).2 in
  1%positive ∈ [4; 6; 1]%positive
  ∧ ∃ σ1 c, Host.connect 1%positive σ1 = (Ok c, σ').
Proof.
  intros H σ'.
  exact (@choose_from_returns_connected_candidate H [4; 6; 1]%positive
           Tests.test_state σ' 1%positive eq_refl).
Defined.

Lemma choose_from_picks_the_reachable_host_witness :
  let H := Tests.test_externals in
  ∃ σ', Host.choose_from [4; 6; 1]%positive Host.None_ Tests.test_state
        = (Ok 1%positive, σ').
Proof.
  intros H.
  apply (@choose_from_picks_the_reachable_host H [4; 6; 1]%positive
           1%positive Tests.test_state).
  - by right; right; left.
  - intros [hp w lg] Hheap. simpl in Hheap. subst hp.
    eexists _, _. reflexivity.
  - intros h [hp w lg] Hh Hne Hheap. simpl in Hheap. subst hp.
    apply elem_of_cons in Hh as [->|Hh]; [eexists _, _; reflexivity|].
    apply elem_of_cons in Hh as [->|Hh]; [eexists _, _; reflexivity|].
    apply elem_of_cons in Hh as [->|Hh]; [done|].
    by apply not_elem_of_nil in Hh.
Defined.

Lemma choose_from_numeric_not_decimal_witness :
  let H := Tests.test_externals in
  ∃ msg, Host.choose_from [1; 2]%positive
           (Host.Str (String "1" (String (ascii_of_nat 189) "")))
           Tests.test_state
         = (Raise (Exn ValueError msg None), Tests.test_state).
Proof.
  intros H.
  exact (@choose_from_numeric_not_decimal H [1; 2]%positive
           (String "1" (String (ascii_of_nat 189) "")) Tests.test_state
           eq_refl eq_refl).
Defined.

Lemma choose_from_index_counts_from_end_witness :
  let H := Tests.test_externals in
  ∃ h, [6; 1; 2]%positive !! Z.to_nat (-1 - 1 + 3) = Some h
       ∧ Host.choose_from [6; 1; 2]%positive (Host.Int (-1)) Tests.test_state
         = (Ok h, Tests.test_state).
Proof.
  intros H.
  apply (@choose_from_index_counts_from_end H [6; 1; 2]%positive (-1)
           Tests.test_state).
  simpl. lia.
Defined.

(** ** The fan-out, further *)

Section parallel_more_facts.
Context {K R : Type} `{Countable K}.
Variable operator_func : K → outcome R.
Import Parallel.

Lemma coroutine_modes_agree operands :
  (∀ op, op ∈ operands → ∃ r, operator_func op = Ok r) →
  map (coroutine operator_func false) operands
  = map (coroutine operator_func true) operands.
Proof.
  induction operands as [|op rest IH]; intros Hok; simpl; [done|].
  rewrite IH by (intros op' Hop'; apply Hok; by right). f_equal.
  destruct (Hok op) as [r Hr]; [by left|].
  unfold coroutine, run_in_executor. by rewrite Hr.
Qed.


End parallel_more_facts.

Section parallel_more.
Context {K R : Type} `{Countable K}.
Variable operator_func : K → outcome R.
Import Parallel.


(** X15.  When the operator raises on none of the operands, the mode makes
    no difference, and neither does the order in which the tasks complete:
    [run_in_parallel] with [return_exceptions=False] gives what it gives
    with [return_exceptions=True]. *)
Theorem run_in_parallel_modes_agree
    (operands : list K) (completion completion' : list nat) :
  (∀ op, op ∈ operands → ∃ r, operator_func op = Ok r) →
  run_in_parallel operator_func operands false completion
  = run_in_parallel operator_func operands true completion'.
Proof.
  intros Hok. unfold run_in_parallel, gather_results, gather.
  rewrite (coroutine_modes_agree _ _ Hok).
  by rewrite !first_exception_collect.
Qed.


End parallel_more.


Lemma run_in_parallel_modes_agree_witness :
  Parallel.run_in_parallel square [1; 2; 4; 5] false [3; 2; 1; 0]%nat
  = Parallel.run_in_parallel square [1; 2; 4; 5] true [0; 1; 2; 3]%nat.
Proof.
  apply (run_in_parallel_modes_agree square [1; 2; 4; 5]).
  intros op _. by eexists.
Defined.


(** ** [ContainerController.put] *)

Section posixpath_facts.
Import Posixpath.

Lemma rfind_from_spec (p : list ascii) (i : nat) (found : Z) :
  (Forall (λ c, c ≠ sep) p ∧ rfind_from p i found = found)
  ∨ (∃ k, p !! k = Some sep ∧ rfind_from p i found = Z.of_nat (i + k)
          ∧ Forall (λ c, c ≠ sep) (drop (Datatypes.S k) p)).
Proof.
  revert i found. induction p as [|c p IH]; intros i found; simpl.
  - left. by split.
  - destruct (IH (Datatypes.S i)
                (if Ascii.eqb c sep then Z.of_nat i else found))
      as [[Hall ->]|(k & Hk & -> & Hdrop)].
    + destruct (Ascii.eqb_spec c sep) as [->|Hne].
      * right. exists O. simpl. rewrite Nat.add_0_r. by rewrite drop_0.
      * left. split; [by constructor | done].
    + right. exists (Datatypes.S k). simpl.
      split; [done|]. split; [f_equal; lia | done].
Qed.

(** What follows the last separator holds no separator. *)
Lemma tail_no_sep (cs : list ascii) :
  Forall (λ c, c ≠ sep) (drop (Z.to_nat (rfind cs + 1)) cs).
Proof.
  unfold rfind.
  destruct (rfind_from_spec cs 0 (-1)) as [[Hall ->]|(k & _ & -> & Hdrop)].
  - simpl. by rewrite drop_0.
  - by replace (Z.to_nat (Z.of_nat (0 + k) + 1)) with (Datatypes.S k) by lia.
Qed.

(** After a final separator there is nothing. *)
Lemma tail_after_final_sep (cs : list ascii) :
  drop (Z.to_nat (rfind (cs ++ [sep]) + 1)) (cs ++ [sep]) = [].
Proof.
  unfold rfind.
  destruct (rfind_from_spec (cs ++ [sep]) 0 (-1))
    as [[Hall _]|(k & Hk & -> & Hdrop)].
  - apply Forall_app in Hall as [_ Hsep].
    rewrite Forall_singleton in Hsep. exfalso. by apply Hsep.
  - replace (Z.to_nat (Z.of_nat (0 + k) + 1)) with (Datatypes.S k) by lia.
    apply drop_ge. rewrite length_app. simpl.
    destruct (decide (Datatypes.S k ≤ length cs)%nat) as [Hle|]; [|lia].
    exfalso. rewrite drop_app_le in Hdrop by done.
    apply Forall_app in Hdrop as [_ Hsep].
    rewrite Forall_singleton in Hsep. by apply Hsep.
Qed.

Lemma list_ascii_of_string_append (a b : string) :
  list_ascii_of_string (String.append a b)
  = list_ascii_of_string a ++ list_ascii_of_string b.
Proof. induction a as [|c a IH]; simpl; [done | by rewrite IH]. Qed.

Lemma split_tail_no_sep (p : string) :
  sep ∉ list_ascii_of_string (split p).2.
Proof.
  unfold split. simpl. rewrite list_ascii_of_string_of_list_ascii.
  intros Hin.
  pose proof (tail_no_sep (list_ascii_of_string p)) as Hall.
  rewrite Forall_forall in Hall. by apply (Hall sep Hin).
Qed.

Lemma basename_no_sep (p : string) :
  sep ∉ list_ascii_of_string (basename p).
Proof.
  unfold basename. rewrite list_ascii_of_string_of_list_ascii.
  intros Hin.
  pose proof (tail_no_sep (list_ascii_of_string p)) as Hall.
  rewrite Forall_forall in Hall. by apply (Hall sep Hin).
Qed.

Lemma split_directory_tail (d : string) :
  (split (String.append d "/")).2 = "".
Proof.
  unfold split. simpl. rewrite list_ascii_of_string_append. simpl.
  change ["/"%char] with [sep].
  by rewrite (tail_after_final_sep (list_ascii_of_string d)).
Qed.

End posixpath_facts.

Section put_claims.
Context `{Controller_externals}.
Import Controller.

(** X17.  [put] either fails on reading the local file, before anything is
    run, or runs one [docker exec ... tar x -C dir -f -] command through the
    context of the controller, with a one-member archive as input.  The
    directory in the command is never empty (it is [.] when [remote] gives
    none), and the name of the member never contains [/]. *)
Theorem put_target_is_well_formed
    (self : ContainerController) (local : local_value)
    (remote : option string) (w : Env) :
  (∃ p e w1, local = Path p ∧ read_file p w = (Raise e, w1)
             ∧ put self local remote w = (Raise e, w1))
  ∨ (∃ dir member data mtime w',
       put self local remote w
       = context_run (context self) (put_command (name self) dir)
           (tar_of member (length data) mtime data) w'
       ∧ dir ≠ "" ∧ Posixpath.sep ∉ list_ascii_of_string member).
Proof.
  unfold put.
  set (target := match remote with
                 | Some r => Posixpath.split r
                 | None => ("", "")
                 end).
  assert (Htail : Posixpath.sep ∉ list_ascii_of_string target.2).
  { unfold target. destruct remote as [r|]; [apply split_tail_no_sep|].
    simpl. apply not_elem_of_nil. }
  destruct target as [remote_path remote_name]. simpl in Htail.
  set (member := match local with
                 | Path p => if String.eqb remote_name ""
                             then Posixpath.basename p else remote_name
                 | _ => remote_name
                 end).
  assert (Hmember : Posixpath.sep ∉ list_ascii_of_string member).
  { unfold member. destruct local as [p| | |]; try done.
    destruct (String.eqb remote_name ""); [apply basename_no_sep | done]. }
  set (dir := if String.eqb remote_path "" then "." else remote_path).
  assert (Hdir : dir ≠ "").
  { unfold dir. destruct (String.eqb_spec remote_path ""); [done|done]. }
  destruct local as [p|content|content|]; simpl.
  - destruct (read_file p w) as [[data|e] w1] eqn:Hread.
    + right. destruct (time_now w1) as [mtime w2].
      by exists dir, member, data, mtime, (set_input_sleep_0 w2).
    + left. by exists p, e, w1.
  - right. destruct (time_now w) as [mtime w2].
    by exists dir, member, (encode_utf8 content), mtime,
         (set_input_sleep_0 w2).
  - right. destruct (time_now w) as [mtime w2].
    by exists dir, member, content, mtime, (set_input_sleep_0 w2).
  - right. destruct (time_now w) as [mtime w2].
    by exists dir, member, [], mtime, (set_input_sleep_0 w2).
Qed.

(** X18.  When [local] is not a path and [remote] is missing or ends in
    [/], nothing names the file: [put] sends an archive whose only member
    has the empty name. *)
Theorem put_stream_into_directory
    (self : ContainerController) (local : local_value)
    (remote : option string) (w : Env) :
  is_str local = false →
  (remote = None ∨ ∃ d, remote = Some (String.append d "/")) →
  ∃ dir data mtime w',
    put self local remote w
    = context_run (context self) (put_command (name self) dir)
        (tar_of "" (length data) mtime data) w'.
Proof.
  intros Hlocal Hremote. unfold put.
  assert (Hname : (match remote with
                   | Some r => Posixpath.split r
                   | None => ("", "")
                   end).2 = "").
  { destruct Hremote as [->|[d ->]]; [done | apply split_directory_tail]. }
  destruct (match remote with
            | Some r => Posixpath.split r
            | None => ("", "")
            end) as [remote_path remote_name].
  simpl in Hname. subst remote_name.
  destruct local as [p|content|content|]; [done| | |]; simpl;
    destruct (time_now w) as [mtime w2].
  - by exists (if String.eqb remote_path "" then "." else remote_path),
      (encode_utf8 content), mtime, (set_input_sleep_0 w2).
  - by exists (if String.eqb remote_path "" then "." else remote_path),
      content, mtime, (set_input_sleep_0 w2).
  - by exists (if String.eqb remote_path "" then "." else remote_path),
      [], mtime, (set_input_sleep_0 w2).
Qed.

End put_claims.

Lemma put_stream_into_directory_witness :
  let H := Controller_tests.test_controller_externals in
  ∃ dir data mtime w',
    Controller.put Controller_tests.mycsar
      (Controller.StringIO "this is stringio") (Some "/tmp/") []
    = context_run tt (Controller.put_command "mycsar" dir)
        (tar_of "" (length data) mtime data) w'.
Proof.
  intros H.
  apply (@put_stream_into_directory H Controller_tests.mycsar
           (Controller.StringIO "this is stringio") (Some "/tmp/") []).
  - reflexivity.
  - right. by exists "/tmp".
Defined.

(** The calls of [test_container_put]: the command run and the name the
    file is archived under. *)
Section test_container_put.
Import Controller Controller_tests.
#[local] Existing Instance test_controller_externals.

Example put_into_directory :
  put mycsar (Path "/home/me/myfile") (Some "/tmp/") []
  = (Ok (Some tt),
     [("docker exec --interactive mycsar tar x -C /tmp -f -",
       bytes_of "myfile" ++ bytes_of "this is my file")]).
Proof. reflexivity. Qed.

Example put_renamed :
  put mycsar (Path "/home/me/myfile") (Some "/tmp/rename") []
  = (Ok (Some tt),
     [("docker exec --interactive mycsar tar x -C /tmp -f -",
       bytes_of "rename" ++ bytes_of "this is my file")]).
Proof. reflexivity. Qed.

Example put_without_remote :
  put mycsar (Path "/home/me/myfile") None []
  = (Ok (Some tt),
     [("docker exec --interactive mycsar tar x -C . -f -",
       bytes_of "myfile" ++ bytes_of "this is my file")]).
Proof. reflexivity. Qed.

Example put_stringio :
  put mycsar (StringIO "this is stringio") (Some "textio") []
  = (Ok (Some tt),
     [("docker exec --interactive mycsar tar x -C . -f -",
       bytes_of "textio" ++ bytes_of "this is stringio")]).
Proof. reflexivity. Qed.

Example put_missing_file :
  put mycsar (Path "/home/me/other") (Some "/tmp/") []
  = (Raise (Exn OSError ["No such file or directory"] None), []).
Proof. reflexivity. Qed.

End test_container_put.
